(** * jsonrest: error envelopes, error translation and request dispatch

    A shallow embedding of [errors.go] of the jsonrest package, together
    with the parts of the router the package's tests exercise.

    Go strings are byte strings: they are modelled by [string], whose
    characters ([ascii]) are bytes.  A [*httpError] is a pointer: the
    package heap is a finite map from locations to [httpError] records,
    and the package-level variable [unknownError] is one fixed location
    of that heap. *)

From Stdlib Require Import ZArith Ascii String List Lia DecimalString.
From stdpp Require Import base option list strings gmap.

Set Warnings "-register-all".

Open Scope string_scope.
Open Scope Z_scope.

(** ** Byte-string helpers (package [strings] and [fmt]) *)

Module GoStrings.

Definition tab : ascii := ascii_of_nat 9.
Definition newline : ascii := ascii_of_nat 10.
Definition dquote : ascii := ascii_of_nat 34.
Definition squote : ascii := ascii_of_nat 39.

(** [strings.Replace(s, old, new, -1)] for a one-byte [old]: every
    occurrence is replaced, left to right. *)
Fixpoint Replace (s : string) (old : ascii) (new : string) : string :=
  match s with
  | EmptyString => EmptyString
  | String c r =>
      if Ascii.eqb c old then new +:+ Replace r old new
      else String c (Replace r old new)
  end.

(** [strings.Split(s, sep)] for a one-byte [sep].  The result always has
    one more element than [s] has separators, so it is never empty. *)
Fixpoint Split (s : string) (sep : ascii) : list string :=
  match s with
  | EmptyString => [EmptyString]
  | String c r =>
      if Ascii.eqb c sep then EmptyString :: Split r sep
      else match Split r sep with
           | h :: t => String c h :: t
           | [] => [String c EmptyString]
           end
  end.

(** [strings.Join(elems, sep)] for a one-byte [sep]. *)
Fixpoint Join (elems : list string) (sep : ascii) : string :=
  match elems with
  | [] => EmptyString
  | [e] => e
  | e :: rest => e +:+ String sep (Join rest sep)
  end.

(** Occurrence test for a byte in a string. *)
Fixpoint contains (s : string) (c : ascii) : bool :=
  match s with
  | EmptyString => false
  | String d r => Ascii.eqb d c || contains r c
  end.

(** Writes a text whose double quotes are typed as single quotes. *)
Fixpoint dq (s : string) : string :=
  match s with
  | EmptyString => EmptyString
  | String c r => String (if Ascii.eqb c squote then dquote else c) (dq r)
  end.

End GoStrings.

(** ** The error envelope and the package heap *)

(** [type httpError struct { Code, Message string; Details []string; Status int }] *)
Record httpError := mk_httpError {
  Code : string;
  Message : string;
  Details : list string;
  Status : Z
}.

Definition set_Details (d : list string) (e : httpError) : httpError :=
  {| Code := Code e; Message := Message e; Details := d; Status := Status e |}.

(** Locations of [httpError] values; [nil_loc] is the nil pointer and is
    never allocated. *)
Definition loc := nat.
Definition nil_loc : loc := 0%nat.

(** The package-level pointer [unknownError]. *)
Definition unknownError : loc := 1%nat.

(** An error of another package, seen through what jsonrest can observe of
    it: its [Error()] text, its [%+v] rendering (the same text unless the
    type implements [fmt.Formatter], as errors carrying a stack trace do)
    and its optional [StatusCode()] method. *)
Record foreignError := mk_foreignError {
  ErrorText : string;
  VerboseText : string;
  StatusCode : option Z
}.

(** A value of the interface type [error], by dynamic type. *)
Inductive error :=
| err_nil
| err_httpError (p : loc)
| err_foreign (e : foreignError).

(** [errors.New(text)] *)
Definition errors_New (text : string) : error :=
  err_foreign {| ErrorText := text; VerboseText := text; StatusCode := None |}.

Record store := mk_store {
  cells : gmap loc httpError;
  next : loc
}.

(** The heap after package initialisation: only [unknownError] exists. *)
Definition unknownError_init : httpError :=
  {| Code := "unknown_error";
     Message := "an unknown error occurred";
     Details := [];
     Status := 500 |}.

Definition init_store : store :=
  {| cells := {[ unknownError := unknownError_init ]}; next := 2%nat |}.

(** Pointer dereference; [None] is the nil-pointer panic. *)
Definition deref (st : store) (p : loc) : option httpError := cells st !! p.

(** [&httpError{...}]: allocation of a new record. *)
Definition alloc (e : httpError) (st : store) : loc * store :=
  (next st, {| cells := <[next st := e]> (cells st); next := S (next st) |}).

(** [func Error(status int, code, message string) error] *)
Definition Error (status : Z) (code message : string) (st : store) : error * store :=
  let '(p, st') :=
    alloc {| Code := code; Message := message; Details := []; Status := status |} st in
  (err_httpError p, st').

Definition BadRequest (msg : string) := Error 400 "bad_request" msg.
Definition UnauthorizedError (msg : string) := Error 401 "unauthorized" msg.
Definition NotFound (msg : string) := Error 404 "not_found" msg.
Definition UnprocessableEntity (msg : string) := Error 422 "unprocessable_entity" msg.

(** [func (err *httpError) Error() string] *)
Definition httpError_Error (e : httpError) : string :=
  "jsonrest: " +:+ Code e +:+ ": " +:+ Message e.

(** [fmt.Sprintf("%+v", err)] *)
Definition Sprintf_plus_v (st : store) (err : error) : string :=
  match err with
  | err_nil => "<nil>"
  | err_httpError p =>
      match deref st p with
      | Some e => httpError_Error e
      | None => "<nil>"
      end
  | err_foreign e => VerboseText e
  end.

(** [func dumpError(err error) []string] *)
Definition dumpError (st : store) (err : error) : list string :=
  let s := Sprintf_plus_v st err in
  let s := GoStrings.Replace s GoStrings.tab "  " in
  GoStrings.Split s GoStrings.newline.

(** [httpErr.Details = d]: a write through the pointer. *)
Definition write_Details (p : loc) (d : list string) (st : store) : store :=
  {| cells := alter (set_Details d) p (cells st); next := next st |}.

(** [func translateError(err error, dumpInternalError bool) *httpError]

    The type assertion of [err] to [*httpError] succeeds exactly on the
    dynamic type [*httpError].  In the other branch the source takes the
    address of the indirection of [unknownError].  In Go an indirection
    [*p] denotes the variable [p] points to, and the address of that
    variable is [p]: the expression is the pointer [unknownError] itself,
    no record is allocated (a copy needs a variable of its own, as in
    [e := *unknownError; httpErr = &e]), and the assignment to [Details]
    writes the record every later call reads.  The comment in the source
    calls the expression a shallow copy. *)
Definition translateError (err : error) (dumpInternalError : bool) (st : store)
  : loc * store :=
  match err with
  | err_httpError p => (p, st)
  | _ =>
      let httpErr := unknownError in
      if dumpInternalError
      then (httpErr, write_Details httpErr (dumpError st err) st)
      else (httpErr, st)
  end.

(** The envelope a caller reads through the returned pointer. *)
Definition translated (err : error) (dumpInternalError : bool) (st : store)
  : option httpError :=
  let '(p, st') := translateError err dumpInternalError st in deref st' p.

Definition is_httpError (err : error) : bool :=
  match err with err_httpError _ => true | _ => false end.

(** [strconv.Itoa] / the [%v] verb on an integer. *)
Definition Itoa (n : Z) : string := DecimalString.NilZero.string_of_int (Z.to_int n).

(** ** JSON encoding (package [encoding/json]) *)

Module Json.

(** A JSON document; object members keep their order. *)
Inductive value :=
| Null
| Bool (b : bool)
| Num (n : Z)
| Str (s : string)
| Arr (items : list value)
| Obj (members : list (string * value)).

(** The Go values [MarshalJSON] hands to [json.Marshal]: strings, string
    slices and structs whose fields carry a [json:"name"] tag, with or
    without [omitempty].  An empty string slice stands for the nil
    slice: in this package [Details] is either unset or the result of
    [strings.Split], which is never empty. *)
Inductive govalue :=
| GoString (s : string)
| GoStringSlice (l : list string)
| GoStruct (fields : list (string * bool * govalue)).

(** [isEmptyValue]: zero length for strings and slices; a struct is
    never empty. *)
Definition isEmptyValue (v : govalue) : bool :=
  match v with
  | GoString s => Nat.eqb (String.length s) 0
  | GoStringSlice l => Nat.eqb (List.length l) 0
  | GoStruct _ => false
  end.

(** [json.Marshal], up to the text of the document: fields in
    declaration order, an [omitempty] field left out when empty. *)
Fixpoint Marshal (v : govalue) : value :=
  match v with
  | GoString s => Str s
  | GoStringSlice [] => Null
  | GoStringSlice l => Arr (List.map Str l)
  | GoStruct fields =>
      Obj ((fix members (fs : list (string * bool * govalue)) :=
              match fs with
              | [] => []
              | (name, omitempty, fv) :: rest =>
                  if omitempty && isEmptyValue fv then members rest
                  else (name, Marshal fv) :: members rest
              end) fields)
  end.

Definition hexdigit (n : nat) : ascii :=
  match String.get n "0123456789abcdef" with
  | Some c => c
  | None => "0"%char
  end.

(** The escape of one ASCII byte inside a string literal, with HTML
    escaping on as [json.Marshal] has it.  Backspace and form feed get
    the short escapes of the current encoder (older ones wrote them as
    [\u0008] and [\u000c]). *)
Definition escape_ascii (c : ascii) : string :=
  let b := nat_of_ascii c in
  if (b =? 34)%nat || (b =? 92)%nat then String (ascii_of_nat 92) (String c EmptyString)
  else if (b =? 8)%nat then String (ascii_of_nat 92) "b"
  else if (b =? 12)%nat then String (ascii_of_nat 92) "f"
  else if (b =? 10)%nat then String (ascii_of_nat 92) "n"
  else if (b =? 13)%nat then String (ascii_of_nat 92) "r"
  else if (b =? 9)%nat then String (ascii_of_nat 92) "t"
  else if (b <? 32)%nat || (b =? 38)%nat || (b =? 60)%nat || (b =? 62)%nat
  then String (ascii_of_nat 92)
         (String "u" (String "0" (String "0"
            (String (hexdigit (b / 16)) (String (hexdigit (b mod 16)) EmptyString)))))
  else String c EmptyString.

Definition byte_at (i : nat) (s : string) : nat :=
  match String.get i s with
  | Some c => nat_of_ascii c
  | None => 256%nat
  end.

Definition between (lo hi b : nat) : bool := (lo <=? b)%nat && (b <=? hi)%nat.

(** [utf8.DecodeRuneInString] on a string that starts with a byte of
    [0x80] or more: the size of the encoding, or [0] for an invalid or
    truncated one. *)
Definition utf8_size (s : string) : nat :=
  let b0 := byte_at 0 s in
  let cont i := between 128 191 (byte_at i s) in
  if between 194 223 b0 then (if cont 1%nat then 2 else 0)%nat
  else if between 224 239 b0 then
    let lo := if (b0 =? 224)%nat then 160%nat else 128%nat in
    let hi := if (b0 =? 237)%nat then 159%nat else 191%nat in
    (if between lo hi (byte_at 1 s) && cont 2%nat then 3 else 0)%nat
  else if between 240 244 b0 then
    let lo := if (b0 =? 240)%nat then 144%nat else 128%nat in
    let hi := if (b0 =? 244)%nat then 143%nat else 191%nat in
    (if between lo hi (byte_at 1 s) && cont 2%nat && cont 3%nat then 4 else 0)%nat
  else 0%nat.

(** The body of a string literal.  [skip] counts the remaining bytes of
    a multi-byte character already decided on; they are copied when
    [keep] is set and dropped otherwise.  An invalid byte becomes
    [\ufffd]; U+2028 and U+2029 are written as escapes. *)
Fixpoint escape (skip : nat) (keep : bool) (s : string) : string :=
  match s with
  | EmptyString => EmptyString
  | String c r =>
      match skip with
      | S k => if keep then String c (escape k keep r) else escape k keep r
      | O =>
          if (nat_of_ascii c <? 128)%nat then escape_ascii c +:+ escape 0 true r
          else
            match utf8_size s with
            | O => String (ascii_of_nat 92) "ufffd" +:+ escape 0 true r
            | S k =>
                if (nat_of_ascii c =? 226)%nat && (byte_at 1 s =? 128)%nat
                   && between 168 169 (byte_at 2 s)
                then String (ascii_of_nat 92) "u202"
                       +:+ String (hexdigit (byte_at 2 s mod 16)) (escape k false r)
                else String c (escape k true r)
            end
      end
  end.

Definition quote (s : string) : string :=
  String GoStrings.dquote (escape 0 true s +:+ String GoStrings.dquote EmptyString).

(** The compact text [json.Marshal] produces for a document. *)
Fixpoint render (v : value) : string :=
  match v with
  | Null => "null"
  | Bool b => if b then "true" else "false"
  | Num n => Itoa n
  | Str s => quote s
  | Arr items =>
      "[" +:+ (fix go (l : list value) :=
                 match l with
                 | [] => EmptyString
                 | [x] => render x
                 | x :: rest => render x +:+ "," +:+ go rest
                 end) items +:+ "]"
  | Obj members =>
      "{" +:+ (fix go (l : list (string * value)) :=
                 match l with
                 | [] => EmptyString
                 | [(k, x)] => quote k +:+ ":" +:+ render x
                 | (k, x) :: rest => quote k +:+ ":" +:+ render x +:+ "," +:+ go rest
                 end) members +:+ "}"
  end.

End Json.

(** [func (err *httpError) MarshalJSON() ([]byte, error)]: the wrapper
    struct [wp] is filled from the receiver and marshalled; marshalling
    strings and string slices cannot fail. *)
Definition wp (err : httpError) : Json.govalue :=
  Json.GoStruct
    [("error", false,
      Json.GoStruct
        [("code", false, Json.GoString (Code err));
         ("message", false, Json.GoString (Message err));
         ("details", true, Json.GoStringSlice (Details err))])].

Definition MarshalJSON_value (err : httpError) : Json.value := Json.Marshal (wp err).

Definition MarshalJSON (err : httpError) : string := Json.render (MarshalJSON_value err).

(** The method called through a pointer: a nil receiver panics at
    [err.Code]. *)
Definition MarshalJSON_at (st : store) (p : loc) : option string :=
  MarshalJSON <$> deref st p.

(** ** JSON syntax checking (the scanner of [encoding/json]) *)

Module Scanner.

(** What the scanner is in the middle of: its step function. *)
Inductive state :=
| stateBeginValueOrEmpty | stateBeginValue | stateBeginStringOrEmpty
| stateBeginString | stateEndValue | stateEndTop
| stateInString | stateInStringEsc
| stateInStringEscU | stateInStringEscU1 | stateInStringEscU12 | stateInStringEscU123
| stateNeg | state1 | state0 | stateDot | stateDot0 | stateE | stateESign | stateE0
| stateT | stateTr | stateTru | stateF | stateFa | stateFal | stateFals
| stateN | stateNu | stateNul
| stateError.

Inductive parse := parseObjectKey | parseObjectValue | parseArrayValue.

Inductive opcode :=
| scanContinue | scanBeginLiteral | scanBeginObject | scanObjectKey
| scanObjectValue | scanEndObject | scanBeginArray | scanArrayValue
| scanEndArray | scanSkipSpace | scanEnd | scanError.

(** [json.SyntaxError] *)
Record SyntaxError := mk_SyntaxError { msg : string; Offset : Z }.

(** The scanner: its step, the stack of open composites (innermost
    first), the error it has met and the number of bytes it was fed. *)
Record scanner := mk_scanner {
  step : state;
  parseState : list parse;
  err : option SyntaxError;
  bytes : Z
}.

Definition reset : scanner :=
  {| step := stateBeginValue; parseState := []; err := None; bytes := 0 |}.

Definition isSpace (c : ascii) : bool :=
  let b := nat_of_ascii c in
  (b =? 32)%nat || (b =? 9)%nat || (b =? 13)%nat || (b =? 10)%nat.

Definition isDigit (c : ascii) : bool := Json.between 48 57 (nat_of_ascii c).

Definition isHex (c : ascii) : bool :=
  let b := nat_of_ascii c in
  Json.between 48 57 b || Json.between 97 102 b || Json.between 65 70 b.

Definition isByte (c : ascii) (t : string) : bool := String.eqb (String c EmptyString) t.

(** [quoteChar]: the offending byte as it appears in the message.  The
    byte is turned into the character of that code point and quoted as
    [strconv.Quote] does. *)
Definition quoteChar (c : ascii) : string :=
  let b := nat_of_ascii c in
  let bs := ascii_of_nat 92 in
  let wrap t := String GoStrings.squote (t +:+ String GoStrings.squote EmptyString) in
  let hex2 := String (Json.hexdigit (b / 16)) (String (Json.hexdigit (b mod 16)) EmptyString) in
  if (b =? 39)%nat then wrap (String bs (String GoStrings.squote EmptyString))
  else if (b =? 34)%nat then wrap (String GoStrings.dquote EmptyString)
  else if (b =? 92)%nat then wrap (String bs (String bs EmptyString))
  else if (b =? 7)%nat then wrap (String bs "a")
  else if (b =? 8)%nat then wrap (String bs "b")
  else if (b =? 12)%nat then wrap (String bs "f")
  else if (b =? 10)%nat then wrap (String bs "n")
  else if (b =? 13)%nat then wrap (String bs "r")
  else if (b =? 9)%nat then wrap (String bs "t")
  else if (b =? 11)%nat then wrap (String bs "v")
  else if (b <? 32)%nat || (b =? 127)%nat then wrap (String bs (String "x" hex2))
  else if (b <? 128)%nat then wrap (String c EmptyString)
  else if (b <=? 160)%nat || (b =? 173)%nat then wrap (String bs (String "u" ("00" +:+ hex2)))
  else wrap (String (ascii_of_nat (192 + b / 64))
               (String (ascii_of_nat (128 + b mod 64)) EmptyString)).

(** The scanner moves to [st] with the stack [ps] and reports [op]. *)
Definition goto (s : scanner) (st : state) (ps : list parse) (op : opcode)
  : scanner * opcode :=
  ({| step := st; parseState := ps; err := err s; bytes := bytes s |}, op).

(** [s.error(c, context)]: the error is recorded with the current byte
    count and the scanner stops. *)
Definition error (s : scanner) (c : ascii) (context : string) : scanner * opcode :=
  ({| step := stateError; parseState := parseState s;
      err := Some {| msg := "invalid character " +:+ quoteChar c +:+ " " +:+ context;
                     Offset := bytes s |};
      bytes := bytes s |},
   scanError).

(** [stateEndTop]: a byte that is not white space after the top-level
    value is recorded as an error for the next call; this call reports
    the end of the value all the same. *)
Definition endTop (s : scanner) (c : ascii) : scanner * opcode :=
  if isSpace c then (s, scanEnd) else (fst (error s c "after top-level value"), scanEnd).

(** [stateEndValue]: after a value, by the innermost open composite. *)
Definition endValue (s : scanner) (c : ascii) : scanner * opcode :=
  match parseState s with
  | [] => endTop (fst (goto s stateEndTop [] scanEnd)) c
  | top :: below =>
      if isSpace c then goto s stateEndValue (top :: below) scanSkipSpace
      else
        let pop op :=
          match below with
          | [] => goto s stateEndTop [] op
          | _ => goto s stateEndValue below op
          end in
        match top with
        | parseObjectKey =>
            if isByte c ":" then goto s stateBeginValue (parseObjectValue :: below) scanObjectKey
            else error s c "after object key"
        | parseObjectValue =>
            if isByte c "," then goto s stateBeginString (parseObjectKey :: below) scanObjectValue
            else if isByte c "}" then pop scanEndObject
            else error s c "after object key:value pair"
        | parseArrayValue =>
            if isByte c "," then goto s stateBeginValue (top :: below) scanArrayValue
            else if isByte c "]" then pop scanEndArray
            else error s c "after array element"
        end
  end.

Definition beginValue (s : scanner) (c : ascii) : scanner * opcode :=
  let ps := parseState s in
  if isSpace c then (s, scanSkipSpace)
  else if isByte c "{" then goto s stateBeginStringOrEmpty (parseObjectKey :: ps) scanBeginObject
  else if isByte c "[" then goto s stateBeginValueOrEmpty (parseArrayValue :: ps) scanBeginArray
  else if Ascii.eqb c GoStrings.dquote then goto s stateInString ps scanBeginLiteral
  else if isByte c "-" then goto s stateNeg ps scanBeginLiteral
  else if isByte c "0" then goto s state0 ps scanBeginLiteral
  else if isByte c "t" then goto s stateT ps scanBeginLiteral
  else if isByte c "f" then goto s stateF ps scanBeginLiteral
  else if isByte c "n" then goto s stateN ps scanBeginLiteral
  else if isDigit c then goto s state1 ps scanBeginLiteral
  else error s c "looking for beginning of value".

Definition beginString (s : scanner) (c : ascii) : scanner * opcode :=
  if isSpace c then (s, scanSkipSpace)
  else if Ascii.eqb c GoStrings.dquote then goto s stateInString (parseState s) scanBeginLiteral
  else error s c "looking for beginning of object key string".

Definition zero (s : scanner) (c : ascii) : scanner * opcode :=
  if isByte c "." then goto s stateDot (parseState s) scanContinue
  else if isByte c "e" || isByte c "E" then goto s stateE (parseState s) scanContinue
  else endValue s c.

Definition eSign (s : scanner) (c : ascii) : scanner * opcode :=
  if isDigit c then goto s stateE0 (parseState s) scanContinue
  else error s c "in exponent of numeric literal".

(** One letter of [true], [false] or [null]. *)
Definition letter (next : state) (want : string) (word : string)
    (s : scanner) (c : ascii) : scanner * opcode :=
  if isByte c want then goto s next (parseState s) scanContinue
  else error s c ("in literal " +:+ word +:+ " (expecting '" +:+ want +:+ "')").

Definition hexStep (next : state) (s : scanner) (c : ascii) : scanner * opcode :=
  if isHex c then goto s next (parseState s) scanContinue
  else error s c
         (String "i" (String "n" (String " " (String (ascii_of_nat 92)
            "u hexadecimal character escape")))).

(** [s.step(s, c)] *)
Definition scan_step (s : scanner) (c : ascii) : scanner * opcode :=
  let ps := parseState s in
  match step s with
  | stateBeginValueOrEmpty =>
      if isSpace c then (s, scanSkipSpace)
      else if isByte c "]" then endValue s c
      else beginValue s c
  | stateBeginValue => beginValue s c
  | stateBeginStringOrEmpty =>
      if isSpace c then (s, scanSkipSpace)
      else if isByte c "}" then
        endValue
          (fst (goto s (step s)
                  (match ps with _ :: below => parseObjectValue :: below | [] => [] end)
                  scanContinue))
          c
      else beginString s c
  | stateBeginString => beginString s c
  | stateEndValue => endValue s c
  | stateEndTop => endTop s c
  | stateInString =>
      if Ascii.eqb c GoStrings.dquote then goto s stateEndValue ps scanContinue
      else if Ascii.eqb c (ascii_of_nat 92) then goto s stateInStringEsc ps scanContinue
      else if (nat_of_ascii c <? 32)%nat then error s c "in string literal"
      else (s, scanContinue)
  | stateInStringEsc =>
      if isByte c "b" || isByte c "f" || isByte c "n" || isByte c "r" || isByte c "t"
         || Ascii.eqb c (ascii_of_nat 92) || isByte c "/" || Ascii.eqb c GoStrings.dquote
      then goto s stateInString ps scanContinue
      else if isByte c "u" then goto s stateInStringEscU ps scanContinue
      else error s c "in string escape code"
  | stateInStringEscU => hexStep stateInStringEscU1 s c
  | stateInStringEscU1 => hexStep stateInStringEscU12 s c
  | stateInStringEscU12 => hexStep stateInStringEscU123 s c
  | stateInStringEscU123 => hexStep stateInString s c
  | stateNeg =>
      if isByte c "0" then goto s state0 ps scanContinue
      else if isDigit c then goto s state1 ps scanContinue
      else error s c "in numeric literal"
  | state1 =>
      if isDigit c then goto s state1 ps scanContinue else zero s c
  | state0 => zero s c
  | stateDot =>
      if isDigit c then goto s stateDot0 ps scanContinue
      else error s c "after decimal point in numeric literal"
  | stateDot0 =>
      if isDigit c then (s, scanContinue)
      else if isByte c "e" || isByte c "E" then goto s stateE ps scanContinue
      else endValue s c
  | stateE =>
      if isByte c "+" || isByte c "-" then goto s stateESign ps scanContinue
      else eSign s c
  | stateESign => eSign s c
  | stateE0 =>
      if isDigit c then (s, scanContinue) else endValue s c
  | stateT => letter stateTr "r" "true" s c
  | stateTr => letter stateTru "u" "true" s c
  | stateTru => letter stateEndValue "e" "true" s c
  | stateF => letter stateFa "a" "false" s c
  | stateFa => letter stateFal "l" "false" s c
  | stateFal => letter stateFals "s" "false" s c
  | stateFals => letter stateEndValue "e" "false" s c
  | stateN => letter stateNu "u" "null" s c
  | stateNu => letter stateNul "l" "null" s c
  | stateNul => letter stateEndValue "l" "null" s c
  | stateError => (s, scanError)
  end.

(** What reading a value reports: the scanner's [SyntaxError], or the
    end of the input met before the value was complete ([io.EOF] on
    blank input, [io.ErrUnexpectedEOF] otherwise), here with the number
    of bytes read. *)
Inductive decodeError :=
| Syntax (e : SyntaxError)
| EndOfInput (text : string) (read : Z).

Definition fed (s : scanner) : scanner :=
  {| step := step s; parseState := parseState s; err := err s; bytes := bytes s + 1 |}.

(** [Decoder.readValue]: the bytes are fed to the scanner one by one,
    [bytes] counting those fed, the offending one included; reading
    stops at the end of the first value, or with the scanner's error. *)
Fixpoint readValue (s : scanner) (nonSpace : bool) (input : string)
  : option decodeError :=
  match input with
  | EmptyString =>
      match scan_step s " "%char with
      | (_, scanEnd) => None
      | _ => Some (EndOfInput (if nonSpace then "unexpected EOF" else "EOF") (bytes s))
      end
  | String c rest =>
      match scan_step (fed s) c with
      | (_, scanEnd) => None
      | (s', scanEndObject) | (s', scanEndArray) =>
          match endValue s' " "%char with
          | (_, scanEnd) => None
          | (s'', _) => readValue s'' true rest
          end
      | (s', scanError) => Syntax <$> err s'
      | (s', _) => readValue s' (nonSpace || negb (isSpace c)) rest
      end
  end.

(** [Decoder.Decode], as far as the syntax of the value goes. *)
Definition Decode (input : string) : option decodeError := readValue reset false input.

End Scanner.


(** ** Handlers *)

(** What a handler or a middleware does besides computing: it builds
    errors with the package's constructors, and it may panic.  [k] is the
    rest of the handler, given the error just built. *)
Inductive prog (A : Type) :=
| Ret (a : A)
| CallError (status : Z) (code message : string) (k : error -> prog A)
| Panic (payload : string).

Arguments Ret {A} a.
Arguments CallError {A} status code message k.
Arguments Panic {A} payload.

Fixpoint bind {A B : Type} (p : prog A) (f : A -> prog B) : prog B :=
  match p with
  | Ret a => f a
  | CallError status code message k =>
      CallError status code message (fun e => bind (k e) f)
  | Panic payload => Panic payload
  end.

Inductive outcome (A : Type) :=
| Returned (a : A)
| Panicked (payload : string).

Arguments Returned {A} a.
Arguments Panicked {A} payload.

(** Running a handler on the package heap. *)
Fixpoint run {A : Type} (p : prog A) (st : store) : outcome A * store :=
  match p with
  | Ret a => (Returned a, st)
  | CallError status code message k =>
      let '(e, st') := Error status code message st in run (k e) st'
  | Panic payload => (Panicked payload, st)
  end.

(** Modelled from the spec: the [Request] of section 3, without its
    header and key-value accessors. *)
Record Request := mk_Request {
  Method : string;
  Route : string;
  params : list (string * string);
  Body : string
}.

(** Modelled from the spec: [Param(name)], empty if absent. *)
Fixpoint Param_in (ps : list (string * string)) (name : string) : string :=
  match ps with
  | [] => EmptyString
  | (k, v) :: rest => if String.eqb k name then v else Param_in rest name
  end.

Definition Param (r : Request) (name : string) : string := Param_in (params r) name.

(** Modelled from the spec: an [Endpoint] returns [(value, error)]; the
    value is given by the JSON document it serializes to, [None] being
    the absent value.  A [Middleware] transforms an endpoint. *)
Definition Endpoint : Type := Request -> prog (option Json.value * error).
Definition Middleware : Type := Endpoint -> Endpoint.

(** [BadRequest] as a handler step. *)
Definition callBadRequest (msg : string) : prog error :=
  CallError 400 "bad_request" msg Ret.

(** Modelled from the spec: [BindBody] of section 4.3, as far as the
    syntax of the body goes: a body that is not a JSON value fails with a
    client-input error reporting the byte offset and the text of the
    parse failure.  Filling the destination is left to the handler. *)
Definition BindBody (r : Request) : prog error :=
  match Scanner.Decode (Body r) with
  | None => Ret err_nil
  | Some (Scanner.Syntax {| Scanner.msg := msg; Scanner.Offset := off |})
  | Some (Scanner.EndOfInput msg off) =>
      callBadRequest
        ("malformed or unexpected json: offset " +:+ Itoa off +:+ ": " +:+ msg)
  end.

(** ** The route table *)

Module RouteTable.
Section Table.
Variable E : Type.

(** Modelled from the spec: the trie of section 4.1.  A node holds
    the route that ends there (its pattern and endpoint), its literal
    children by segment text, and its parameter child. *)
Inductive node :=
| Node (leaf : option (string * E))
       (literals : list (string * node))
       (param : option node).

Definition empty : node := Node None [] None.

Definition segments (path : string) : list string := GoStrings.Split path "/"%char.

(** A segment that starts with the sentinel [:] is a parameter. *)
Definition isParam (seg : string) : bool :=
  match seg with
  | String c _ => Ascii.eqb c ":"%char
  | EmptyString => false
  end.

Definition paramName (seg : string) : string :=
  match seg with
  | String _ name => name
  | EmptyString => EmptyString
  end.

Fixpoint find_literal (seg : string) (lits : list (string * node)) : option node :=
  match lits with
  | [] => None
  | (k, child) :: rest => if String.eqb k seg then Some child else find_literal seg rest
  end.

Fixpoint update_literal (seg : string) (f : node -> node) (lits : list (string * node))
  : list (string * node) :=
  match lits with
  | [] => [(seg, f empty)]
  | (k, child) :: rest =>
      if String.eqb k seg then (k, f child) :: rest
      else (k, child) :: update_literal seg f rest
  end.

(** Modelled from the spec: the insertion [Register] makes, one node
    per segment; a route registered twice for the same pattern replaces
    the earlier one. *)
Fixpoint insert (segs : list string) (route : string * E) (n : node) : node :=
  let 'Node leaf lits par := n in
  match segs with
  | [] => Node (Some route) lits par
  | seg :: rest =>
      if isParam seg
      then Node leaf lits
             (Some (insert rest route (match par with Some c => c | None => empty end)))
      else Node leaf (update_literal seg (insert rest route) lits) par
  end.

(** Modelled from the spec: the walk of [Match].  At each node the
    literal child with exactly the segment's text is taken if there
    is one; the parameter child is tried only otherwise, and only on
    a non-empty segment, whose text it records. *)
Fixpoint walk (segs : list string) (n : node) (values : list string)
  : option (string * E * list string) :=
  let 'Node leaf lits par := n in
  match segs with
  | [] =>
      match leaf with
      | Some (pattern, e) => Some (pattern, e, rev values)
      | None => None
      end
  | seg :: rest =>
      match find_literal seg lits with
      | Some child => walk rest child values
      | None =>
          match par with
          | Some child =>
              if String.eqb seg EmptyString then None
              else walk rest child (seg :: values)
          | None => None
          end
      end
  end.

Definition paramNames (pattern : string) : list string :=
  List.map paramName (List.filter isParam (segments pattern)).

Definition table : Type := gmap string node.

(** Modelled from the spec: [Register(method, pattern, endpoint)]. *)
Definition Register (method pattern : string) (e : E) (t : table) : table :=
  let root := match t !! method with Some n => n | None => empty end in
  <[method := insert (segments pattern) (pattern, e) root]> t.

(** Modelled from the spec: [Match(method, path)]: the endpoint, the
    parameters in pattern order and the pattern, or nothing. *)
Definition Match (method path : string) (t : table)
  : option (E * list (string * string) * string) :=
  match t !! method with
  | None => None
  | Some root =>
      match walk (segments path) root [] with
      | Some (pattern, e, values) =>
          Some (e, List.combine (paramNames pattern) values, pattern)
      | None => None
      end
  end.
End Table.

Arguments Node {E} leaf literals param.
Arguments empty {E}.
Arguments Register {E} method pattern e t.
Arguments Match {E} method path t.
End RouteTable.

(** ** The router *)

Record Response := mk_Response { status : Z; body : string }.

(** Modelled from the spec: the router facade of sections 2 and 6: the
    route table, the middleware stack of the registration scope, the
    internal-error-dump flag and the optional not-found override, which
    receives the method and path of the request. *)
Record Router := mk_Router {
  routes : RouteTable.table Endpoint;
  middleware : list Middleware;
  DumpErrors : bool;
  notFoundHandler : option (string -> string -> Response)
}.

Definition NewRouter : Router :=
  {| routes := ∅; middleware := []; DumpErrors := false; notFoundHandler := None |}.

Definition withDumpErrors (b : bool) (r : Router) : Router :=
  {| routes := routes r; middleware := middleware r; DumpErrors := b;
     notFoundHandler := notFoundHandler r |}.

(** Modelled from the spec: [Use] appends to the stack; the endpoint of a
    route is [mw_n (... (mw_1 handler))], computed at registration. *)
Definition Use (mw : Middleware) (r : Router) : Router :=
  {| routes := routes r; middleware := middleware r ++ [mw];
     DumpErrors := DumpErrors r; notFoundHandler := notFoundHandler r |}.

Definition compile (mws : list Middleware) (h : Endpoint) : Endpoint :=
  fold_left (fun e mw => mw e) mws h.

(** Modelled from the spec: the registration function shared by the
    per-method ones. *)
Definition Handle (method pattern : string) (h : Endpoint) (r : Router) : Router :=
  {| routes := RouteTable.Register method pattern (compile (middleware r) h) (routes r);
     middleware := middleware r; DumpErrors := DumpErrors r;
     notFoundHandler := notFoundHandler r |}.

Definition Get := Handle "GET".
Definition Post := Handle "POST".

(** Modelled from the spec: the methods that have a registration
    function (section 6). *)
Definition knownMethods : list string := ["GET"; "HEAD"; "POST"; "PUT"; "PATCH"; "DELETE"].

Definition isKnownMethod (m : string) : bool := existsb (String.eqb m) knownMethods.

(** ASCII white space, as [strings.Fields] sees it. *)
Definition isFieldSpace (c : ascii) : bool :=
  let b := nat_of_ascii c in Json.between 9 13 b || (b =? 32)%nat.

(** [strings.Fields]: the maximal runs of bytes that are not white
    space. *)
Fixpoint Fields (s : string) : list string :=
  match s with
  | EmptyString => []
  | String c r =>
      if isFieldSpace c then Fields r
      else
        match r with
        | String d _ =>
            if isFieldSpace d then String c EmptyString :: Fields r
            else match Fields r with
                 | h :: t => String c h :: t
                 | [] => [String c EmptyString]
                 end
        | EmptyString => [String c EmptyString]
        end
  end.

(** Modelled from the spec: a [RouteMap] key is a known method, white
    space and a path. *)
Definition parseRouteKey (key : string) : option (string * string) :=
  match Fields key with
  | [method; path] => if isKnownMethod method then Some (method, path) else None
  | _ => None
  end.

(** The result of a setup step: a router, or the panic that halts setup. *)
Inductive setup :=
| Ready (r : Router)
| Fatal (msg : string).

(** Modelled from the spec: [Routes(map)].  The map is given as the list
    of its entries in the order the iteration visits them. *)
Fixpoint Routes (m : list (string * Endpoint)) (r : Router) : setup :=
  match m with
  | [] => Ready r
  | (key, h) :: rest =>
      match parseRouteKey key with
      | Some (method, path) => Routes rest (Handle method path h r)
      | None => Fatal ("invalid route: " +:+ key)
      end
  end.

(** An inbound call, as the transport hands it over. *)
Record Call := mk_Call { call_method : string; call_path : string; call_body : string }.

(** What the client gets: a response, or none when writing it failed on
    a nil [*httpError]. *)
Inductive served :=
| Responded (r : Response)
| NoResponse.

(** Modelled from the spec: the default not-found responder of
    section 4.6. *)
Definition notFoundError : httpError :=
  {| Code := "not_found"; Message := "url not found"; Details := []; Status := 404 |}.

Section Dispatch.

(** The response to an error that exposes a [StatusCode()] method is
    built by the router before translation; how is left open here. *)
Variable respondStatusCode : foreignError -> Z -> Response.

(** Modelled from the spec: a recovered panic becomes a generic unknown
    error (section 4.4). *)
Definition recovered (payload : string) : error := errors_New payload.

(** Modelled from the spec: the guarded frame of section 4.4. *)
Definition guarded (e : Endpoint) (req : Request) (st : store)
  : (option Json.value * error) * store :=
  match run (e req) st with
  | (Returned r, st') => (r, st')
  | (Panicked payload, st') => ((None, recovered payload), st')
  end.

Definition statusCodeOf (err : error) : option (foreignError * Z) :=
  match err with
  | err_foreign e =>
      match StatusCode e with
      | Some code => Some (e, code)
      | None => None
      end
  | _ => None
  end.

(** Modelled from the spec: the error path: the envelope
    [translateError] returns is written with its status. *)
Definition sendError (dump : bool) (err : error) (st : store) : served * store :=
  match statusCodeOf err with
  | Some (e, code) => (Responded (respondStatusCode e code), st)
  | None =>
      let '(p, st') := translateError err dump st in
      match deref st' p with
      | Some httpErr =>
          (Responded {| status := Status httpErr; body := MarshalJSON httpErr |}, st')
      | None => (NoResponse, st')
      end
  end.

(** Modelled from the spec: the endpoint contract of section 4.4: a
    non-nil error drives the error path; otherwise the value, or the
    literal [null] for the absent value, is the body. *)
Definition invoke (dump : bool) (e : Endpoint) (req : Request) (st : store)
  : served * store :=
  let '((v, err), st') := guarded e req st in
  match err with
  | err_nil =>
      (Responded
         {| status := 200;
            body := Json.render (match v with Some d => d | None => Json.Null end) |},
       st')
  | _ => sendError dump err st'
  end.

(** Modelled from the spec: the dispatch entrypoint, with the default
    not-found responder of section 4.6. *)
Definition ServeHTTP (r : Router) (c : Call) (st : store) : served * store :=
  match RouteTable.Match (call_method c) (call_path c) (routes r) with
  | None =>
      (Responded
         match notFoundHandler r with
         | Some h => h (call_method c) (call_path c)
         | None => {| status := Status notFoundError; body := MarshalJSON notFoundError |}
         end,
       st)
  | Some (e, ps, pattern) =>
      invoke (DumpErrors r) e
        {| Method := call_method c; Route := pattern; params := ps; Body := call_body c |}
        st
  end.

(** Modelled from the spec: the serving process: the calls are answered
    one after the other on the same package heap. *)
Fixpoint serve (r : Router) (calls : list Call) (st : store) : list served * store :=
  match calls with
  | [] => ([], st)
  | c :: rest =>
      let '(a, st') := ServeHTTP r c st in
      let '(answers, st'') := serve r rest st' in
      (a :: answers, st'')
  end.

End Dispatch.

(** A handler whose panics are replaced by the return of the error the
    guarded frame makes of them. *)
Fixpoint returning (p : prog (option Json.value * error)) : prog (option Json.value * error) :=
  match p with
  | Ret a => Ret a
  | CallError status code message k =>
      CallError status code message (fun e => returning (k e))
  | Panic payload => Ret (None, errors_New payload)
  end.

(** ** The heaps the package can be in *)

(** The heaps reached from the initial one by calls of [Error] and
    [translateError]; with [dumping] unset, no call had the dump flag. *)
Inductive reachable (dumping : bool) : store -> Prop :=
| reach_init : reachable dumping init_store
| reach_Error st status code message :
    reachable dumping st ->
    reachable dumping (snd (Error status code message st))
| reach_translate st err (d : bool) :
    reachable dumping st ->
    (d = true -> dumping = true) ->
    reachable dumping (snd (translateError err d st)).

(** The part of [unknownError] no function of the package writes. *)
Definition unknown_head (e : httpError) : Prop :=
  Code e = "unknown_error" /\ Message e = "an unknown error occurred" /\ Status e = 500.

(** [unknownError] is allocated, its code, message and status are as
    declared, and allocation never reuses its location. *)
Definition store_ok (st : store) : Prop :=
  (exists e, deref st unknownError = Some e /\ unknown_head e)
  /\ (unknownError < next st)%nat.

(** ** The handlers of the package's tests *)

(** [TestRequestBody]: the handler binds the body and goes on with [k]. *)
Definition bindingHandler (k : Endpoint) : Endpoint :=
  fun r =>
    bind (BindBody r)
      (fun err =>
         match err with
         | err_nil => k r
         | _ => Ret (None, err)
         end).

(** [TestSimilarEndpoint]: a Go map is written with its keys sorted. *)
Definition withId : Endpoint :=
  fun r =>
    Ret (Some (Json.Obj [("message", Json.Str "Endpoint with id");
                         ("param", Json.Str (Param r "id"))]),
         err_nil).

Definition withoutId : Endpoint :=
  fun _ => Ret (Some (Json.Obj [("message", Json.Str "Endpoint without id")]), err_nil).

(** [TestDumpInternalError] and [TestError]: the handler returns an
    error of another package. *)
Definition returningError (text : string) : Endpoint :=
  fun _ => Ret (None, errors_New text).

(** [TestPanicHandling] *)
Definition panicking : Endpoint := fun _ => Panic "test panic".

(** [TestError]: an error with a [StatusCode()] method. *)
Definition testError : foreignError :=
  {| ErrorText := "test"; VerboseText := "test"; StatusCode := Some 444 |}.

(** ** Measures used by the further properties *)

(** [strings.Count(s, c)] for a one-byte [c]. *)
Fixpoint Count (s : string) (c : ascii) : nat :=
  match s with
  | EmptyString => 0%nat
  | String d r => ((if Ascii.eqb d c then 1 else 0) + Count r c)%nat
  end.

(** Every allocated location is a real pointer (not nil) handed out
    before [next]. *)
Definition allocated_below (st : store) : Prop :=
  forall p e, deref st p = Some e -> (nil_loc < p < next st)%nat.

(** A heap the package reaches after at least one dumping call: the
    state the further properties are tried on. *)
Definition dumped_store : store :=
  snd (translateError (errors_New "foo error occurred") true init_store).

(** The scanner fed a run of bytes, as [checkValid] feeds them: [None]
    when a byte is refused. *)
Fixpoint steps (s : Scanner.scanner) (run : string) : option Scanner.scanner :=
  match run with
  | EmptyString => Some s
  | String c rest =>
      match Scanner.scan_step (Scanner.fed s) c with
      | (_, Scanner.scanError) => None
      | (s', _) => steps s' rest
      end
  end.

(** The top-level value is complete ([s.endTop], once the recorded error
    has been looked at). *)
Definition endTop_reached (s : Scanner.scanner) : bool :=
  match Scanner.step s with
  | Scanner.stateEndTop => true
  | _ => false
  end.

(** [func (s *scanner) eof() int]: [None] is [scanEnd]. *)
Definition eof (s : Scanner.scanner) : option Scanner.SyntaxError :=
  match Scanner.err s with
  | Some e => Some e
  | None =>
      if endTop_reached s then None
      else
        let s' := fst (Scanner.scan_step s " "%char) in
        if endTop_reached s' then None
        else
          match Scanner.err s' with
          | Some e => Some e
          | None =>
              Some {| Scanner.msg := "unexpected end of JSON input";
                      Scanner.Offset := Scanner.bytes s |}
          end
  end.

Fixpoint checkValid_from (s : Scanner.scanner) (data : string)
  : option Scanner.SyntaxError :=
  match data with
  | EmptyString => eof s
  | String c rest =>
      match Scanner.scan_step (Scanner.fed s) c with
      | (s', Scanner.scanError) => Scanner.err s'
      | (s', _) => checkValid_from s' rest
      end
  end.

(** [func checkValid(data []byte, scan *scanner) error], the test behind
    [json.Valid]: every byte is fed to the scanner, and the input must
    end where one top-level value ends.  [None] is the nil error. *)
Definition checkValid (data : string) : option Scanner.SyntaxError :=
  checkValid_from Scanner.reset data.

(** The steps the scanner has inside a string literal. *)
Definition in_string (st : Scanner.state) : bool :=
  match st with
  | Scanner.stateInString | Scanner.stateInStringEsc
  | Scanner.stateInStringEscU | Scanner.stateInStringEscU1
  | Scanner.stateInStringEscU12 | Scanner.stateInStringEscU123 => true
  | _ => false
  end.

(** The scanner fed a run of bytes that never takes it out of the string
    literal it is in. *)
Fixpoint stays_in_string (s : Scanner.scanner) (run : string)
  : option Scanner.scanner :=
  match run with
  | EmptyString => Some s
  | String c rest =>
      match Scanner.scan_step (Scanner.fed s) c with
      | (s', Scanner.scanContinue) =>
          if in_string (Scanner.step s') then stays_in_string s' rest else None
      | _ => None
      end
  end.

(** What a run inside a string literal leaves of the scanner: it is in
    the literal, ready for a character, with the stack and the recorded
    error it had. *)
Definition literal_kept (s s' : Scanner.scanner) : Prop :=
  Scanner.step s' = Scanner.stateInString
  /\ Scanner.parseState s' = Scanner.parseState s
  /\ Scanner.err s' = Scanner.err s.

(** The body of the string literal the scanner is in, up to the quote
    that closes it, and the text after that quote. *)
Fixpoint read_literal (s : Scanner.scanner) (input : string)
  : option (string * string) :=
  match input with
  | EmptyString => None
  | String c rest =>
      match Scanner.scan_step (Scanner.fed s) c with
      | (s', Scanner.scanContinue) =>
          if in_string (Scanner.step s') then
            match read_literal s' rest with
            | Some (body, after) => Some (String c body, after)
            | None => None
            end
          else
            match Scanner.step s' with
            | Scanner.stateEndValue => Some (EmptyString, rest)
            | _ => None
            end
      | _ => None
      end
  end.

(** The scanner just after the quote that opens a string literal. *)
Definition literal_start : Scanner.scanner :=
  {| Scanner.step := Scanner.stateInString; Scanner.parseState := [];
     Scanner.err := None; Scanner.bytes := 0 |}.

(** [input] without its prefix [prefix], if it starts with it. *)
Fixpoint expect (prefix input : string) : option string :=
  match prefix, input with
  | EmptyString, _ => Some input
  | String a p, String b i => if Ascii.eqb a b then expect p i else None
  | String _ _, EmptyString => None
  end.

(** The string literals that follow the first element of an array, each
    after a comma, and the text after the last of them. *)
Fixpoint read_items (fuel : nat) (input : string) : option (list string * string) :=
  match fuel with
  | O => None
  | S fuel' =>
      match expect (GoStrings.dq ",'") input with
      | None => Some ([], input)
      | Some rest =>
          match read_literal literal_start rest with
          | None => None
          | Some (d, after) =>
              match read_items fuel' after with
              | Some (ds, final) => Some (d :: ds, final)
              | None => None
              end
          end
      end
  end.

(** What the shape of an error response holds: the string literals of
    the code and of the message, and those of the details when the
    member [details] is there. *)
Record envelope_text := mk_envelope_text {
  code_literal : string;
  message_literal : string;
  details_literals : option (list string)
}.

(** The shape of an error response, read off the text: the object with
    the single member [error], itself the object with the members [code]
    and [message], both string literals, and then either nothing or the
    member [details], a non-empty array of string literals.  Any other
    text, any other or further member, is refused. *)
Definition envelope_shape (text : string) : option envelope_text :=
  match expect (GoStrings.dq "{'error':{'code':'") text with
  | None => None
  | Some r1 =>
  match read_literal literal_start r1 with
  | None => None
  | Some (c, r2) =>
  match expect (GoStrings.dq ",'message':'") r2 with
  | None => None
  | Some r3 =>
  match read_literal literal_start r3 with
  | None => None
  | Some (m, r4) =>
  match expect "}}" r4 with
  | Some EmptyString =>
      Some {| code_literal := c; message_literal := m; details_literals := None |}
  | Some _ => None
  | None =>
  match expect (GoStrings.dq ",'details':['") r4 with
  | None => None
  | Some r5 =>
  match read_literal literal_start r5 with
  | None => None
  | Some (d, r6) =>
  match read_items (String.length r6) r6 with
  | None => None
  | Some (ds, r7) =>
  match expect "]}}" r7 with
  | Some EmptyString =>
      Some {| code_literal := c; message_literal := m;
              details_literals := Some (d :: ds) |}
  | _ => None
  end end end end end end end end end.

(** The first [k] bytes of [s], as far as it goes, are [0x80] or more. *)
Fixpoint highs (k : nat) (s : string) : Prop :=
  match k, s with
  | S k', String c r => (128 <= nat_of_ascii c)%nat /\ highs k' r
  | _, _ => True
  end.

(** The text that follows the first element of a rendered array of
    strings: the other elements, each after a comma, and [close]. *)
Fixpoint more_items (ds : list string) (close : string) : string :=
  match ds with
  | [] => close
  | d :: rest => "," +:+ Json.quote d +:+ more_items rest close
  end.

(** * Properties *)

(** ** Splitting and replacing *)

Section SplitJoin.
Import GoStrings.

Lemma Split_nonempty s sep : Split s sep <> [].
Proof.
  destruct s as [|c r]; simpl; [discriminate|].
  destruct (Ascii.eqb c sep); [discriminate|].
  destruct (Split r sep); discriminate.
Qed.

(** Joining the pieces with the separator gives the text back. *)
Lemma Join_Split s sep : Join (Split s sep) sep = s.
Proof.
  induction s as [|c r IH]; simpl; [reflexivity|].
  pose proof (Split_nonempty r sep) as Hne.
  destruct (Ascii.eqb c sep) eqn:Hc.
  - apply Ascii.eqb_eq in Hc. subst c.
    destruct (Split r sep) as [|h t]; [contradiction|].
    change (Join ("" :: h :: t) sep) with (String sep (Join (h :: t) sep)).
    now rewrite IH.
  - destruct (Split r sep) as [|h t]; [contradiction|].
    destruct t as [|h' t]; simpl in *; now rewrite <- IH.
Qed.

(** No piece contains the separator. *)
Lemma Split_no_sep s sep :
  Forall (fun piece => contains piece sep = false) (Split s sep).
Proof.
  induction s as [|c r IH]; simpl.
  - repeat constructor.
  - destruct (Ascii.eqb c sep) eqn:Hc.
    + constructor; [reflexivity | exact IH].
    + destruct (Split r sep) as [|h t]; simpl.
      * repeat constructor. simpl. now rewrite Hc.
      * inversion IH; subst. constructor; [|assumption].
        simpl. now rewrite Hc.
Qed.

(** After the replacement no tab is left. *)
Lemma Replace_tab_free s : contains (Replace s tab "  ") tab = false.
Proof.
  induction s as [|c r IH]; simpl; [reflexivity|].
  destruct (Ascii.eqb c tab) eqn:Hc; simpl; [exact IH|].
  now rewrite Hc.
Qed.

(** A text without tabs is left as it is. *)
Lemma Replace_no_tab s : contains s tab = false -> Replace s tab "  " = s.
Proof.
  induction s as [|c r IH]; simpl; [reflexivity|].
  destruct (Ascii.eqb c tab); simpl; [discriminate|].
  intros H. now rewrite IH.
Qed.
End SplitJoin.

(** The lines of a dump are never an empty list, hold no newline and no
    tab, and joined by newlines they are the error's text with its tabs
    replaced. *)
Lemma dumpError_lines st err :
  dumpError st err <> []
  /\ Forall (fun line => GoStrings.contains line GoStrings.newline = false) (dumpError st err)
  /\ GoStrings.contains (GoStrings.Join (dumpError st err) GoStrings.newline) GoStrings.tab = false
  /\ GoStrings.Join (dumpError st err) GoStrings.newline
     = GoStrings.Replace (Sprintf_plus_v st err) GoStrings.tab "  ".
Proof.
  unfold dumpError. repeat split.
  - apply Split_nonempty.
  - apply Split_no_sep.
  - rewrite Join_Split. apply Replace_tab_free.
  - apply Join_Split.
Qed.

(** ** Invariants of the heap *)

Lemma init_store_ok : store_ok init_store.
Proof.
  split; [|unfold unknownError; simpl; lia].
  exists unknownError_init. split; [reflexivity|]. repeat split.
Qed.

Lemma Error_ok status code message st :
  store_ok st -> store_ok (snd (Error status code message st)).
Proof.
  intros [[e [He Hh]] Hn]. split; simpl.
  - exists e. split; [|exact Hh].
    unfold deref in *. simpl. rewrite lookup_insert_ne; [exact He | lia].
  - lia.
Qed.

Lemma translateError_ok err d st :
  store_ok st -> store_ok (snd (translateError err d st)).
Proof.
  intros Hok.
  assert (Hw : forall l, store_ok (write_Details unknownError l st)).
  { intros l. destruct Hok as [[e [He Hh]] Hn]. split; [|exact Hn].
    exists (set_Details l e). split.
    - unfold deref in *. simpl. rewrite lookup_alter_eq, He. reflexivity.
    - exact Hh. }
  destruct err, d; simpl; auto.
Qed.

Lemma reachable_ok dumping st : reachable dumping st -> store_ok st.
Proof.
  induction 1; auto using init_store_ok, Error_ok, translateError_ok.
Qed.

Lemma reachable_weaken st : reachable false st -> reachable true st.
Proof.
  induction 1; [constructor | now constructor |].
  constructor; [assumption | reflexivity].
Qed.

(** While no call has the dump flag, [unknownError] is as declared. *)
Lemma reachable_nodump_pristine st :
  reachable false st -> deref st unknownError = Some unknownError_init.
Proof.
  induction 1 as [|st status code message H IH|st err d H IH Hd].
  - reflexivity.
  - pose proof (reachable_ok _ _ H) as [_ Hn].
    unfold deref in *. simpl. rewrite lookup_insert_ne; [exact IH | lia].
  - destruct d; [now specialize (Hd eq_refl)|].
    destruct err; exact IH.
Qed.

Lemma run_reachable {A} dumping (p : prog A) st :
  reachable dumping st -> reachable dumping (snd (run p st)).
Proof.
  revert st. induction p as [a|status code message k IH|payload]; intros st Hst; simpl; auto.
  apply IH. now apply (reach_Error dumping st status code message).
Qed.

(** What [translateError] returns for an error of another type, read
    through the returned pointer. *)
Lemma translated_foreign err d st e :
  is_httpError err = false ->
  deref st unknownError = Some e ->
  translated err d st
  = Some (if d then set_Details (dumpError st err) e else e).
Proof.
  intros Herr He. unfold translated.
  destruct err; try discriminate; destruct d; simpl; unfold deref in *; simpl;
    rewrite ?lookup_alter_eq, He; reflexivity.
Qed.

(** On a heap where [unknownError] is as declared, the envelope for an
    error of another type has the fixed code, message and status, the
    dump as its details when the flag is set and no details otherwise. *)
Lemma translated_unknown_pristine err d st :
  is_httpError err = false ->
  deref st unknownError = Some unknownError_init ->
  translated err d st
  = Some {| Code := "unknown_error";
            Message := "an unknown error occurred";
            Details := if d then dumpError st err else [];
            Status := 500 |}.
Proof.
  intros Herr He. rewrite (translated_foreign _ _ _ _ Herr He). now destruct d.
Qed.

(** ** The error translator *)

(** C1, as the code has it: [translateError] does not look for a
    [StatusCode()] method.  On every heap the package can be in, an error
    of another type, with or without that method, gets the envelope of
    [unknownError]: code [unknown_error], message [an unknown error
    occurred], status 500. *)
Theorem translateError_ignores_StatusCode (st : store) (e : foreignError) (d : bool) :
  reachable true st ->
  exists env,
    translated (err_foreign e) d st = Some env
    /\ Code env = "unknown_error"
    /\ Message env = "an unknown error occurred"
    /\ Status env = 500.
Proof.
  intros Hst. destruct (reachable_ok _ _ Hst) as [[u [Hu [Hc [Hm Hs]]]] _].
  rewrite (translated_foreign (err_foreign e) d st u eq_refl Hu).
  eexists. split; [reflexivity|]. now destruct d.
Qed.

Lemma translateError_ignores_StatusCode_witness :
  exists env,
    translated (err_foreign testError) false init_store = Some env
    /\ Code env = "unknown_error"
    /\ Message env = "an unknown error occurred"
    /\ Status env = 500.
Proof.
  apply (translateError_ignores_StatusCode init_store testError false).
  apply reach_init.
Defined.

(** C1 fails as stated: the error of [TestError], whose [StatusCode()] is
    444 and whose message is [test], is not an [httpError], and the
    envelope [translateError] returns for it has neither that status nor
    that message: it is the unknown-error envelope with status 500. *)
Lemma translateError_StatusCode_counterexample :
  is_httpError (err_foreign testError) = false
  /\ StatusCode testError = Some 444
  /\ translated (err_foreign testError) false init_store = Some unknownError_init
  /\ ~ (exists env,
          translated (err_foreign testError) false init_store = Some env
          /\ Status env = 444 /\ Message env = ErrorText testError).
Proof.
  repeat split.
  intros [env [Henv [Hs _]]].
  change (translated (err_foreign testError) false init_store)
    with (Some unknownError_init) in Henv.
  injection Henv as <-. discriminate Hs.
Qed.

(** C2 at its failing input: after one translation with the dump flag,
    a translation without the flag returns the details of the earlier
    error, where the claim has no details. *)
Theorem translateError_stale_details :
  let st1 := snd (translateError (errors_New "foo error occurred") true init_store) in
  is_httpError (errors_New "missing id") = false
  /\ translated (errors_New "missing id") false st1
     = Some {| Code := "unknown_error";
               Message := "an unknown error occurred";
               Details := ["foo error occurred"];
               Status := 500 |}.
Proof. split; reflexivity. Qed.

(** C3: an [httpError] is returned as it is: the same pointer, on an
    unchanged heap, whatever the flag.  The error declared with status
    404, code [customer_not_found] and message [customer not found] is
    written as the expected text, with status 404. *)
Theorem translateError_httpError_unmodified :
  (forall (st : store) (p : loc) (d : bool),
      translateError (err_httpError p) d st = (p, st)
      /\ translated (err_httpError p) d st = deref st p)
  /\ (forall (st : store) (d : bool),
        exists p st1 env,
          Error 404 "customer_not_found" "customer not found" st = (err_httpError p, st1)
          /\ translateError (err_httpError p) d st1 = (p, st1)
          /\ deref st1 p = Some env
          /\ Status env = 404
          /\ MarshalJSON env
             = GoStrings.dq
                 "{'error':{'code':'customer_not_found','message':'customer not found'}}").
Proof.
  split.
  - intros st p d. split; reflexivity.
  - intros st d. eexists _, _, _. split; [reflexivity|]. split; [reflexivity|].
    split; [unfold deref; simpl; apply lookup_insert_eq|].
    split; reflexivity.
Qed.

(** Without the dump flag the envelope does not depend on the error at
    hand:
    two errors that are not [httpError]s get the same pointer, the same
    heap and the same envelope, also one after the other; and while no
    call has had the flag, that envelope is [unknownError] as declared,
    without details. *)
Lemma translateError_nodump_independent (st : store) (e1 e2 : error) :
  is_httpError e1 = false ->
  is_httpError e2 = false ->
  translateError e1 false st = translateError e2 false st
  /\ translated e1 false st = translated e2 false st
  /\ translated e2 false (snd (translateError e1 false st)) = translated e1 false st
  /\ (reachable false st -> translated e1 false st = Some unknownError_init).
Proof.
  intros H1 H2.
  assert (T : forall e, is_httpError e = false ->
                        translateError e false st = (unknownError, st)).
  { intros e He. destruct e; try discriminate; reflexivity. }
  unfold translated. rewrite (T e1 H1), (T e2 H2). simpl.
  rewrite (T e2 H2). repeat split.
  apply reachable_nodump_pristine.
Qed.

Lemma translateError_nodump_independent_witness :
  translateError (errors_New "missing id") false init_store
    = translateError (errors_New "foo error occurred") false init_store
  /\ translated (errors_New "missing id") false init_store
     = translated (errors_New "foo error occurred") false init_store
  /\ translated (errors_New "foo error occurred") false
       (snd (translateError (errors_New "missing id") false init_store))
     = translated (errors_New "missing id") false init_store
  /\ (reachable false init_store ->
      translated (errors_New "missing id") false init_store = Some unknownError_init).
Proof.
  apply (translateError_nodump_independent init_store
           (errors_New "missing id") (errors_New "foo error occurred"));
    reflexivity.
Defined.

(** C4 at its failing input: after a translation with the dump flag, a
    translation without the flag answers another error with the text of
    the earlier one among its details, and the envelope it returns
    changes with that text: internal error text reaches the client
    although the call has the flag off. *)
Theorem translateError_nodump_leaks_text :
  let st_foo := snd (translateError (errors_New "foo error occurred") true init_store) in
  let st_bar := snd (translateError (errors_New "bar error occurred") true init_store) in
  is_httpError (errors_New "missing id") = false
  /\ (MarshalJSON <$> translated (errors_New "missing id") false st_foo)
     = Some (GoStrings.dq
               "{'error':{'code':'unknown_error','message':'an unknown error occurred','details':['foo error occurred']}}")
  /\ (MarshalJSON <$> translated (errors_New "missing id") false st_bar)
     = Some (GoStrings.dq
               "{'error':{'code':'unknown_error','message':'an unknown error occurred','details':['bar error occurred']}}")
  /\ translated (errors_New "missing id") false st_foo
     <> translated (errors_New "missing id") false st_bar.
Proof.
  repeat split; try reflexivity. intros H. vm_compute in H. discriminate H.
Qed.

(** C10 at its failing input: a translation with the dump flag writes
    the record [unknownError] points to, so the envelope of a later call
    depends on the earlier one. *)
Theorem translateError_writes_unknownError :
  let st1 := snd (translateError (errors_New "foo error occurred") true init_store) in
  deref init_store unknownError = Some unknownError_init
  /\ deref st1 unknownError
     = Some (set_Details ["foo error occurred"] unknownError_init)
  /\ deref st1 unknownError <> deref init_store unknownError
  /\ translated (errors_New "missing id") false st1
     <> translated (errors_New "missing id") false init_store.
Proof.
  repeat split; try reflexivity; discriminate.
Qed.

(** ** Serialization *)

(** [TestDumpInternalError]: on the initial heap, with the dump flag, the
    error [foo error occurred] is written with its text as the only
    detail. *)
Example dump_foo_error :
  (MarshalJSON <$> translated (errors_New "foo error occurred") true init_store)
  = Some (GoStrings.dq
            "{'error':{'code':'unknown_error','message':'an unknown error occurred','details':['foo error occurred']}}").
Proof. reflexivity. Qed.

(** [TestError], first case: on the initial heap, without the flag. *)
Example missing_id_error :
  (MarshalJSON <$> translated (errors_New "missing id") false init_store)
  = Some (GoStrings.dq
            "{'error':{'code':'unknown_error','message':'an unknown error occurred'}}").
Proof. reflexivity. Qed.

(** A dump of a text with a tab and two lines. *)
Example dump_two_lines :
  dumpError init_store
    (err_foreign {| ErrorText := "boom";
                    VerboseText := String "b" (String GoStrings.newline
                                     (String GoStrings.tab "at f"));
                    StatusCode := None |})
  = ["b"; "  at f"].
Proof. reflexivity. Qed.


Lemma Marshal_details (l : list string) :
  l <> [] -> Json.Marshal (Json.GoStringSlice l) = Json.Arr (List.map Json.Str l).
Proof. destruct l; [contradiction | reflexivity]. Qed.

(** The document [MarshalJSON] marshals: the object with the single
    member [error], itself an object with the members [code] and
    [message], followed by [details] exactly when the details are not
    empty. *)
Lemma MarshalJSON_value_shape (err : httpError) :
  exists members,
    MarshalJSON_value err = Json.Obj [("error", Json.Obj members)]
    /\ members
       = List.app
           [("code", Json.Str (Code err)); ("message", Json.Str (Message err))]
           (if decide (Details err = []) then []
            else [("details", Json.Arr (List.map Json.Str (Details err)))])
    /\ (In "details" (List.map fst members) <-> Details err <> [])
    /\ (forall k, In k (List.map fst members) ->
                  k = "code" \/ k = "message" \/ k = "details")
    /\ MarshalJSON err = Json.render (Json.Obj [("error", Json.Obj members)]).
Proof.
  destruct err as [c m ds s]. unfold MarshalJSON, MarshalJSON_value, wp. simpl.
  destruct ds as [|d ds]; simpl.
  - eexists. split; [reflexivity|]. split; [reflexivity|]. simpl.
    repeat split; try tauto.
    + intros [H|[H|[]]]; discriminate.
    + intros k [<-|[<-|[]]]; auto.
  - eexists. split; [reflexivity|]. split; [reflexivity|]. simpl.
    repeat split; try tauto; try discriminate.
    intros k [<-|[<-|[<-|[]]]]; auto.
Qed.

(** ** Routing *)

(** C6: with [/api/orders/:id] and [/api/orders/xyz] registered for the
    same method, in either order and whatever the endpoints, the path
    [/api/orders/xyz] matches the literal route, [/api/orders/id-3214-45]
    matches the parameter route with [id] bound to [id-3214-45], and
    [/api/order/xyz] matches nothing.  With the handlers of
    [TestSimilarEndpoint] the three calls are answered by the literal
    handler, by the parameter handler with [Param("id")] in its body, and
    by the not-found response with status 404. *)
Theorem similar_endpoints :
  (forall (E : Type) (h_id h_xyz : E) (t : RouteTable.table E),
      t = RouteTable.Register "GET" "/api/orders/xyz" h_xyz
            (RouteTable.Register "GET" "/api/orders/:id" h_id ∅)
      \/ t = RouteTable.Register "GET" "/api/orders/:id" h_id
               (RouteTable.Register "GET" "/api/orders/xyz" h_xyz ∅) ->
      RouteTable.Match "GET" "/api/orders/xyz" t = Some (h_xyz, [], "/api/orders/xyz")
      /\ RouteTable.Match "GET" "/api/orders/id-3214-45" t
         = Some (h_id, [("id", "id-3214-45")], "/api/orders/:id")
      /\ Param_in [("id", "id-3214-45")] "id" = "id-3214-45"
      /\ RouteTable.Match "GET" "/api/order/xyz" t = None)
  /\ (forall (respond : foreignError -> Z -> Response) (st : store),
        let r := Get "/api/orders/xyz" withoutId (Get "/api/orders/:id" withId NewRouter) in
        ServeHTTP respond r (mk_Call "GET" "/api/orders/xyz" "") st
        = (Responded {| status := 200;
                        body := GoStrings.dq "{'message':'Endpoint without id'}" |}, st)
        /\ ServeHTTP respond r (mk_Call "GET" "/api/orders/id-3214-45" "") st
           = (Responded
                {| status := 200;
                   body := GoStrings.dq
                             "{'message':'Endpoint with id','param':'id-3214-45'}" |}, st)
        /\ ServeHTTP respond r (mk_Call "GET" "/api/order/xyz" "") st
           = (Responded
                {| status := 404;
                   body := GoStrings.dq
                             "{'error':{'code':'not_found','message':'url not found'}}" |},
              st)).
Proof.
  split.
  - intros E h_id h_xyz t [-> | ->]; repeat split; vm_compute; reflexivity.
  - intros respond st. repeat split; vm_compute; reflexivity.
Qed.

Lemma similar_endpoints_witness :
  let t := RouteTable.Register "GET" "/api/orders/xyz" 2%nat
             (RouteTable.Register "GET" "/api/orders/:id" 1%nat ∅) in
  RouteTable.Match "GET" "/api/orders/xyz" t = Some (2%nat, [], "/api/orders/xyz")
  /\ RouteTable.Match "GET" "/api/orders/id-3214-45" t
     = Some (1%nat, [("id", "id-3214-45")], "/api/orders/:id")
  /\ Param_in [("id", "id-3214-45")] "id" = "id-3214-45"
  /\ RouteTable.Match "GET" "/api/order/xyz" t = None.
Proof.
  apply (proj1 similar_endpoints nat 1%nat 2%nat). left. reflexivity.
Defined.

(** ** Binding the body *)

Lemma run_bind {A B} (p : prog A) (f : A -> prog B) st :
  run (bind p f) st
  = match run p st with
    | (Returned a, st') => run (f a) st'
    | (Panicked payload, st') => (Panicked payload, st')
    end.
Proof.
  revert st. induction p as [a|status code message k IH|payload]; intros st; simpl.
  - now destruct (run (f a) st).
  - apply IH.
  - reflexivity.
Qed.

(** [callBadRequest] is [BadRequest] run as a handler step. *)
Lemma run_callBadRequest msg st :
  run (callBadRequest msg) st
  = (Returned (fst (BadRequest msg st)), snd (BadRequest msg st)).
Proof. reflexivity. Qed.

(** A returned [httpError] is answered with its own status and text. *)
Lemma invoke_httpError respond dump (e : Endpoint) req st v p st1 env :
  run (e req) st = (Returned (v, err_httpError p), st1) ->
  deref st1 p = Some env ->
  invoke respond dump e req st
  = (Responded {| status := Status env; body := MarshalJSON env |}, st1).
Proof.
  intros Hrun Hp. unfold invoke, guarded. rewrite Hrun. unfold sendError. simpl.
  now rewrite Hp.
Qed.

(** C7: a handler that binds the body, registered for [POST /users] and
    called with the body [{"id": |1}], is answered with status 400 and
    the [bad_request] envelope whose message gives the offset 8 and the
    text of the parse failure, whatever the dump flag and the heap. *)
Theorem BindBody_bad_json
    (respond : foreignError -> Z -> Response) (k : Endpoint) (dump : bool) (st : store) :
  let r := withDumpErrors dump (Post "/users" (bindingHandler k) NewRouter) in
  let msg := "malformed or unexpected json: offset 8: invalid character '|' looking for beginning of value" in
  let env := {| Code := "bad_request"; Message := msg; Details := []; Status := 400 |} in
  exists st1,
    ServeHTTP respond r (mk_Call "POST" "/users" (GoStrings.dq "{'id': |1}")) st
    = (Responded {| status := 400; body := MarshalJSON env |}, st1)
    /\ st1 = snd (BadRequest msg st)
    /\ MarshalJSON env
       = GoStrings.dq "{'error':{'code':'bad_request','message':'"
           +:+ msg +:+ GoStrings.dq "'}}".
Proof.
  intros r msg env. eexists. split; [|split; reflexivity].
  unfold ServeHTTP.
  change (RouteTable.Match _ _ (routes r))
    with (Some (bindingHandler k, @nil (string * string), "/users")).
  cbv beta iota.
  erewrite invoke_httpError with (env := env).
  - reflexivity.
  - unfold bindingHandler. rewrite run_bind.
    change (BindBody _) with (callBadRequest msg).
    rewrite run_callBadRequest. reflexivity.
  - unfold deref. simpl. apply lookup_insert_eq.
Qed.

(** ** Panic recovery *)

(** Running the handler whose panics are returns is running the handler
    in the guarded frame. *)
Lemma run_returning (p : prog (option Json.value * error)) st :
  run (returning p) st
  = match run p st with
    | (Returned a, st') => (Returned a, st')
    | (Panicked payload, st') => (Returned (None, errors_New payload), st')
    end.
Proof.
  revert st. induction p as [a|status code message k IH|payload]; intros st; simpl;
    [reflexivity | apply IH | reflexivity].
Qed.

(** The error path cannot tell a panic from a returned error. *)
Lemma invoke_returning respond dump (e : Endpoint) req st :
  invoke respond dump (fun r => returning (e r)) req st = invoke respond dump e req st.
Proof.
  unfold invoke, guarded. rewrite run_returning.
  destruct (run (e req) st) as [[a|payload] st']; reflexivity.
Qed.

Lemma serve_length respond r calls st :
  length (fst (serve respond r calls st)) = length calls.
Proof.
  revert st. induction calls as [|c rest IH]; intros st; simpl; [reflexivity|].
  destruct (ServeHTTP respond r c st) as [a st'].
  specialize (IH st'). destruct (serve respond r rest st') as [answers st''].
  simpl in *. now rewrite IH.
Qed.

(** A call whose endpoint (handler and middleware) panics is
    answered, on every heap the package can be in: the answer is the one
    the error path gives for the returned unknown error, with status 500,
    code [unknown_error] and message [an unknown error occurred]; with
    the dump flag off and never used before, its body is exactly the
    generic envelope.  The calls that follow are served, from the heap
    the panicking call left. *)
Lemma panic_recovered
    (respond : foreignError -> Z -> Response) (r : Router) (c : Call) (rest : list Call)
    (st st1 : store) (e : Endpoint) (ps : list (string * string)) (pattern payload : string) :
  let req := {| Method := call_method c; Route := pattern; params := ps;
                Body := call_body c |} in
  reachable true st ->
  RouteTable.Match (call_method c) (call_path c) (routes r) = Some (e, ps, pattern) ->
  run (e req) st = (Panicked payload, st1) ->
  exists env st2,
    ServeHTTP respond r c st
    = (Responded {| status := 500; body := MarshalJSON env |}, st2)
    /\ unknown_head env
    /\ sendError respond (DumpErrors r) (errors_New payload) st1
       = ServeHTTP respond r c st
    /\ invoke respond (DumpErrors r) (fun q => returning (e q)) req st
       = ServeHTTP respond r c st
    /\ (DumpErrors r = false -> reachable false st ->
        st2 = st1
        /\ MarshalJSON env
           = GoStrings.dq
               "{'error':{'code':'unknown_error','message':'an unknown error occurred'}}")
    /\ serve respond r (c :: rest) st
       = (Responded {| status := 500; body := MarshalJSON env |}
            :: fst (serve respond r rest st2),
          snd (serve respond r rest st2))
    /\ length (fst (serve respond r (c :: rest) st)) = S (length rest).
Proof.
  intros req Hst Hm Hrun.
  assert (Hst1 : reachable true st1).
  { replace st1 with (snd (run (e req) st)) by now rewrite Hrun.
    now apply run_reachable. }
  destruct (reachable_ok _ _ Hst1) as [[u [Hu Hh]] _].
  pose proof (translated_foreign (errors_New payload) (DumpErrors r) st1 u eq_refl Hu)
    as Ht.
  unfold translated in Ht.
  destruct (translateError (errors_New payload) (DumpErrors r) st1) as [p st2] eqn:Htr.
  set (env := if DumpErrors r then set_Details (dumpError st1 (errors_New payload)) u
              else u) in *.
  assert (Hsend : sendError respond (DumpErrors r) (errors_New payload) st1
                  = (Responded {| status := 500; body := MarshalJSON env |}, st2)).
  { unfold sendError.
    change (statusCodeOf (errors_New payload)) with (@None (foreignError * Z)).
    cbv iota. rewrite Htr, Ht.
    destruct Hh as [_ [_ Hs]].
    replace (Status env) with 500; [reflexivity|].
    unfold env. now destruct (DumpErrors r). }
  assert (Hserve : ServeHTTP respond r c st
                   = (Responded {| status := 500; body := MarshalJSON env |}, st2)).
  { unfold ServeHTTP. rewrite Hm. fold req. unfold invoke, guarded. rewrite Hrun.
    exact Hsend. }
  exists env, st2. split; [exact Hserve|].
  split; [unfold env; now destruct (DumpErrors r)|].
  split; [now rewrite Hserve|].
  split; [rewrite invoke_returning; unfold ServeHTTP; now rewrite Hm|].
  split.
  - intros Hd Hnd. unfold env. rewrite Hd in *. simpl in Htr. injection Htr as _ <-.
    split; [reflexivity|].
    assert (Hpr : reachable false st1).
    { replace st1 with (snd (run (e req) st)) by now rewrite Hrun.
      now apply run_reachable. }
    apply reachable_nodump_pristine in Hpr. rewrite Hu in Hpr. injection Hpr as ->.
    reflexivity.
  - split.
    + simpl. rewrite Hserve. now destruct (serve respond r rest st2).
    + apply serve_length.
Qed.

Lemma panic_recovered_witness :
  let respond := fun (_ : foreignError) (code : Z) => {| status := code; body := "" |} in
  let r := Get "/panic" panicking NewRouter in
  let c := mk_Call "GET" "/panic" "" in
  reachable true init_store
  /\ run (panicking (mk_Request "GET" "/panic" [] "")) init_store
     = (Panicked "test panic", init_store)
  /\ exists env st2,
      ServeHTTP respond r c init_store
      = (Responded {| status := 500; body := MarshalJSON env |}, st2)
      /\ unknown_head env
      /\ sendError respond (DumpErrors r) (errors_New "test panic") init_store
         = ServeHTTP respond r c init_store
      /\ invoke respond (DumpErrors r) (fun q => returning (panicking q))
           (mk_Request "GET" "/panic" [] "") init_store
         = ServeHTTP respond r c init_store
      /\ (DumpErrors r = false -> reachable false init_store ->
          st2 = init_store
          /\ MarshalJSON env
             = GoStrings.dq
                 "{'error':{'code':'unknown_error','message':'an unknown error occurred'}}")
      /\ serve respond r [c; c] init_store
         = (Responded {| status := 500; body := MarshalJSON env |}
              :: fst (serve respond r [c] st2),
            snd (serve respond r [c] st2))
      /\ length (fst (serve respond r [c; c] init_store)) = 2%nat.
Proof.
  intros respond r c.
  split; [apply reach_init|]. split; [reflexivity|].
  apply (panic_recovered respond r c [c] init_store init_store panicking [] "/panic"
           "test panic").
  - apply reach_init.
  - reflexivity.
  - reflexivity.
Defined.

(** C8 at its failing input: the call of [TestDumpInternalError], to a
    router with the dump flag whose handler returns an error, followed
    by the call of [TestPanicHandling], to a router without the flag
    whose handler panics.  The panic is answered with status 500, but
    its body carries the details of the earlier error instead of being
    the generic envelope, which the same call gets on the initial
    heap. *)
Theorem panic_after_dump_has_details (respond : foreignError -> Z -> Response) :
  let dumping :=
    withDumpErrors true (Get "/" (returningError "foo error occurred") NewRouter) in
  let r := Get "/panic" panicking NewRouter in
  let generic :=
    {| status := 500;
       body := GoStrings.dq
                 "{'error':{'code':'unknown_error','message':'an unknown error occurred'}}" |} in
  let st1 := snd (ServeHTTP respond dumping (mk_Call "GET" "/" "") init_store) in
  DumpErrors r = false
  /\ fst (ServeHTTP respond r (mk_Call "GET" "/panic" "") st1)
     = Responded
         {| status := 500;
            body := GoStrings.dq
                      "{'error':{'code':'unknown_error','message':'an unknown error occurred','details':['foo error occurred']}}" |}
  /\ fst (ServeHTTP respond r (mk_Call "GET" "/panic" "") st1) <> Responded generic
  /\ fst (ServeHTTP respond r (mk_Call "GET" "/panic" "") init_store) = Responded generic.
Proof.
  repeat split; try (vm_compute; reflexivity).
  intros H. vm_compute in H. discriminate H.
Qed.

(** ** Route maps *)

Lemma parseRouteKey_Some key method path :
  parseRouteKey key = Some (method, path)
  <-> Fields key = [method; path] /\ In method knownMethods.
Proof.
  unfold parseRouteKey, isKnownMethod. split.
  - destruct (Fields key) as [|m [|p [|x l]]]; try discriminate.
    destruct (existsb (String.eqb m) knownMethods) eqn:Hk; [|discriminate].
    intros [= <- <-]. split; [reflexivity|].
    apply existsb_exists in Hk as [x [Hin Hx]].
    apply String.eqb_eq in Hx. now subst x.
  - intros [-> Hin].
    replace (existsb (String.eqb method) knownMethods) with true; [reflexivity|].
    symmetry. apply existsb_exists. exists method. split; [exact Hin|].
    apply String.eqb_refl.
Qed.

(** A map whose keys all parse is registered whole. *)
Lemma Routes_wellformed_ready (m : list (string * Endpoint)) (r : Router) :
  (forall key h, In (key, h) m -> parseRouteKey key <> None) ->
  exists r', Routes m r = Ready r'.
Proof.
  revert r. induction m as [|[key h] rest IH]; intros r Hall; simpl.
  - now exists r.
  - destruct (parseRouteKey key) as [[method path]|] eqn:Hk.
    + apply IH. intros k' h' Hin. apply (Hall k' h'). now right.
    + exfalso. apply (Hall key h); [now left | exact Hk].
Qed.

(** C9: a route map with a key that does not parse as a known method
    followed by a path halts setup, in whatever order its entries are
    visited: [Routes] ends in the fatal outcome and yields no router, so
    nothing is left to fail at request time.  The key of
    [TestInvalidRouteMapConfiguration] is such a key. *)
Theorem Routes_malformed_key_fatal (m : list (string * Endpoint)) (r : Router) :
  (exists key h, In (key, h) m /\ parseRouteKey key = None) ->
  (exists msg, Routes m r = Fatal msg)
  /\ (forall r', Routes m r <> Ready r')
  /\ parseRouteKey "some random text" = None.
Proof.
  intros Hbad.
  assert (H : exists msg, Routes m r = Fatal msg).
  { revert r. induction m as [|[key h] rest IH]; intros r.
    - destruct Hbad as [k [h [[] _]]].
    - simpl. destruct (parseRouteKey key) as [[method path]|] eqn:Hk.
      + apply IH. destruct Hbad as [k [h' [[Heq|Hin] Hp]]].
        * injection Heq as -> ->. congruence.
        * now exists k, h'.
      + now eexists. }
  split; [exact H|]. split; [|reflexivity].
  destruct H as [msg Hmsg]. intros r'. rewrite Hmsg. discriminate.
Qed.

Lemma Routes_malformed_key_fatal_witness :
  let m := [("GET  /get", withoutId); ("some random text", withoutId)] in
  (exists msg, Routes m NewRouter = Fatal msg)
  /\ (forall r', Routes m NewRouter <> Ready r')
  /\ parseRouteKey "some random text" = None.
Proof.
  apply (Routes_malformed_key_fatal
           [("GET  /get", withoutId); ("some random text", withoutId)] NewRouter).
  exists "some random text", withoutId. split; [|reflexivity].
  right. left. reflexivity.
Defined.

(** * Further properties of [errors.go] *)

(** ** The dump *)

Lemma Split_length s sep : length (GoStrings.Split s sep) = S (Count s sep).
Proof.
  induction s as [|c r IH]; simpl; [reflexivity|].
  destruct (Ascii.eqb c sep); simpl; [now rewrite IH|].
  destruct (GoStrings.Split r sep); simpl in *; lia.
Qed.

Lemma Split_free s sep c :
  GoStrings.contains s c = false ->
  Forall (fun piece => GoStrings.contains piece c = false) (GoStrings.Split s sep).
Proof.
  induction s as [|d r IH]; simpl; intros H.
  - repeat constructor.
  - apply orb_false_iff in H as [Hd Hr]. specialize (IH Hr).
    destruct (Ascii.eqb d sep).
    + constructor; [reflexivity | exact IH].
    + destruct (GoStrings.Split r sep) as [|h t]; simpl.
      * repeat constructor. simpl. now rewrite Hd.
      * inversion IH; subst. constructor; [|assumption].
        simpl. rewrite Hd. assumption.
Qed.

Lemma Count_Replace_tab s :
  Count (GoStrings.Replace s GoStrings.tab "  ") GoStrings.newline
  = Count s GoStrings.newline.
Proof.
  induction s as [|c r IH]; simpl; [reflexivity|].
  destruct (Ascii.eqb c GoStrings.tab) eqn:Hc; simpl.
  - apply Ascii.eqb_eq in Hc. subst c. exact IH.
  - now rewrite IH.
Qed.

Lemma Split_no_sep_single s sep :
  GoStrings.contains s sep = false -> GoStrings.Split s sep = [s].
Proof.
  induction s as [|c r IH]; simpl; [reflexivity|].
  intros H. apply orb_false_iff in H as [Hc Hr].
  rewrite Hc, (IH Hr). reflexivity.
Qed.

(** The dump of an error loses nothing but the tabs: its lines, joined
    by newlines, are the error's [%+v] text with every tab replaced by
    two spaces; there is always at least one line, and no line holds a
    newline or a tab. *)
Theorem dumpError_roundtrip (st : store) (err : error) :
  GoStrings.Join (dumpError st err) GoStrings.newline
  = GoStrings.Replace (Sprintf_plus_v st err) GoStrings.tab "  "
  /\ dumpError st err <> []
  /\ Forall (fun line => GoStrings.contains line GoStrings.newline = false
                         /\ GoStrings.contains line GoStrings.tab = false)
            (dumpError st err).
Proof.
  unfold dumpError. split; [apply Join_Split|]. split; [apply Split_nonempty|].
  apply Forall_and. split.
  - apply Split_no_sep.
  - apply Split_free, Replace_tab_free.
Qed.

(** The dump has one line more than the error's text has newlines. *)
Theorem dumpError_line_count (st : store) (err : error) :
  length (dumpError st err) = S (Count (Sprintf_plus_v st err) GoStrings.newline).
Proof.
  unfold dumpError. now rewrite Split_length, Count_Replace_tab.
Qed.

(** An error whose text has neither tab nor newline is dumped as that
    text alone. *)
Theorem dumpError_single_line (st : store) (err : error) :
  GoStrings.contains (Sprintf_plus_v st err) GoStrings.tab = false ->
  GoStrings.contains (Sprintf_plus_v st err) GoStrings.newline = false ->
  dumpError st err = [Sprintf_plus_v st err].
Proof.
  intros Ht Hn. unfold dumpError.
  rewrite (Replace_no_tab _ Ht). now apply Split_no_sep_single.
Qed.

Lemma dumpError_single_line_witness :
  dumpError init_store (errors_New "missing id") = ["missing id"].
Proof.
  apply (dumpError_single_line init_store (errors_New "missing id")); reflexivity.
Defined.

(** ** The heap under [Error] and [translateError] *)

Lemma reachable_allocated_below dumping st :
  reachable dumping st -> allocated_below st.
Proof.
  unfold allocated_below, deref, nil_loc.
  induction 1 as [|st status code message H IH|st err d H IH Hd]; intros p e.
  - simpl. intros Hp. apply lookup_singleton_Some in Hp as [<- _].
    unfold unknownError. lia.
  - simpl. intros Hp. apply lookup_insert_Some in Hp as [[<- _]|[_ Hp]].
    + pose proof (reachable_ok _ _ H) as [_ Hn]. unfold unknownError in Hn. lia.
    + specialize (IH _ _ Hp). lia.
  - assert (Hw : forall l q x,
               cells (write_Details unknownError l st) !! q = Some x ->
               (0 < q < next st)%nat).
    { intros l q x Hq. simpl in Hq.
      apply lookup_alter_Some in Hq as [[_ [y [Hy _]]]|[_ Hq]]; eauto. }
    intros Hp.
    destruct err, d; simpl in Hp;
      solve [ eapply IH; eassumption | eapply Hw; simpl; eassumption ].
Qed.

(** Whatever errors were built and translated before, with or without
    the dump flag, [unknownError] is allocated and still has its declared
    code, message and status: only its details can differ. *)
Theorem unknownError_head_kept (st : store) :
  reachable true st ->
  exists e,
    deref st unknownError = Some e
    /\ Code e = Code unknownError_init
    /\ Message e = Message unknownError_init
    /\ Status e = Status unknownError_init.
Proof.
  intros Hst. destruct (reachable_ok _ _ Hst) as [[e [He [Hc [Hm Hs]]]] _].
  now exists e.
Qed.

Lemma unknownError_head_kept_witness :
  exists e,
    deref dumped_store unknownError = Some e
    /\ Code e = Code unknownError_init
    /\ Message e = Message unknownError_init
    /\ Status e = Status unknownError_init.
Proof.
  apply (unknownError_head_kept dumped_store).
  apply (reach_translate true init_store (errors_New "foo error occurred") true).
  - apply reach_init.
  - reflexivity.
Defined.

(** As long as no translation has had the dump flag, [unknownError] is
    exactly as declared, however many errors were built and translated. *)
Theorem unknownError_kept_without_dump (st : store) :
  reachable false st ->
  deref st unknownError = Some unknownError_init
  /\ forall err, is_httpError err = false ->
                 translateError err false st = (unknownError, st).
Proof.
  intros Hst. split; [now apply reachable_nodump_pristine|].
  intros err Herr. destruct err; try discriminate; reflexivity.
Qed.

Lemma unknownError_kept_without_dump_witness :
  let st := snd (translateError (errors_New "missing id") false
                   (snd (NotFound "no such customer" init_store))) in
  deref st unknownError = Some unknownError_init
  /\ forall err, is_httpError err = false ->
                 translateError err false st = (unknownError, st).
Proof.
  apply (unknownError_kept_without_dump
           (snd (translateError (errors_New "missing id") false
                   (snd (NotFound "no such customer" init_store))))).
  apply (reach_translate false _ (errors_New "missing id") false).
  - apply (reach_Error false init_store 404 "not_found" "no such customer").
    apply reach_init.
  - discriminate.
Defined.

(** [translateError] allocates nothing and writes no record but
    [unknownError]: every other error, in particular every error built
    by [Error], reads the same before and after, for any argument and
    either flag; without the flag the whole heap is left as it was. *)
Theorem translateError_frame (st : store) (err : error) (d : bool) (p : loc) :
  p <> unknownError ->
  deref (snd (translateError err d st)) p = deref st p
  /\ next (snd (translateError err d st)) = next st
  /\ (d = false -> snd (translateError err d st) = st).
Proof.
  intros Hp.
  assert (Hw : forall l, deref (write_Details unknownError l st) p = deref st p).
  { intros l. unfold deref. simpl. now apply lookup_alter_ne. }
  destruct err, d; simpl; repeat split; auto; discriminate.
Qed.

Lemma translateError_frame_witness :
  let built := Error 404 "customer_not_found" "customer not found" init_store in
  let st := snd built in
  deref (snd (translateError (errors_New "boom") true st)) 2%nat = deref st 2%nat
  /\ next (snd (translateError (errors_New "boom") true st)) = next st
  /\ (true = false -> snd (translateError (errors_New "boom") true st) = st).
Proof.
  apply (translateError_frame
           (snd (Error 404 "customer_not_found" "customer not found" init_store))
           (errors_New "boom") true 2%nat).
  discriminate.
Defined.

(** A dumping call replaces the details an earlier dumping call left:
    after it the heap is the one it would have produced alone. *)
Theorem translateError_dump_overwrites (st : store) (e1 e2 : error) :
  is_httpError e1 = false ->
  is_httpError e2 = false ->
  snd (translateError e2 true (snd (translateError e1 true st)))
  = snd (translateError e2 true st).
Proof.
  intros H1 H2.
  assert (Hd : forall st' e, is_httpError e = false -> dumpError st' e = dumpError st e).
  { intros st' e He. destruct e; try discriminate; reflexivity. }
  assert (T : forall s e, is_httpError e = false ->
                          snd (translateError e true s)
                          = write_Details unknownError (dumpError s e) s).
  { intros s e He. destruct e; try discriminate; reflexivity. }
  rewrite !T by assumption. rewrite (Hd _ e2 H2).
  unfold write_Details. simpl. f_equal.
  apply map_eq. intros i. destruct (decide (i = unknownError)) as [->|Hne].
  - rewrite !lookup_alter_eq. now destruct (cells st !! unknownError).
  - now rewrite !lookup_alter_ne by congruence.
Qed.

Lemma translateError_dump_overwrites_witness :
  snd (translateError (errors_New "second") true
         (snd (translateError (errors_New "first") true init_store)))
  = snd (translateError (errors_New "second") true init_store).
Proof.
  apply (translateError_dump_overwrites init_store
           (errors_New "first") (errors_New "second")); reflexivity.
Defined.

(** With the dump flag the details returned are those of the error at
    hand, whatever earlier calls left in [unknownError], beside the
    declared code, message and status. *)
Theorem translateError_dump_current (st : store) (err : error) :
  reachable true st ->
  is_httpError err = false ->
  exists env,
    translated err true st = Some env
    /\ Details env = dumpError st err
    /\ unknown_head env.
Proof.
  intros Hst Herr. destruct (reachable_ok _ _ Hst) as [[u [Hu Hh]] _].
  rewrite (translated_foreign err true st u Herr Hu).
  eexists. split; [reflexivity|]. split; [reflexivity | exact Hh].
Qed.

Lemma translateError_dump_current_witness :
  exists env,
    translated (errors_New "second") true dumped_store = Some env
    /\ Details env = dumpError dumped_store (errors_New "second")
    /\ unknown_head env.
Proof.
  apply (translateError_dump_current dumped_store (errors_New "second")).
  - apply (reach_translate true init_store (errors_New "foo error occurred") true).
    + apply reach_init.
    + reflexivity.
  - reflexivity.
Defined.

(** The details a dumping call writes stay: a later translation of any
    other unknown error without the flag returns exactly the envelope the
    dumping call returned, details included. *)
Theorem translateError_details_persist (st : store) (e1 e2 : error) :
  is_httpError e1 = false ->
  is_httpError e2 = false ->
  translated e2 false (snd (translateError e1 true st)) = translated e1 true st.
Proof.
  intros H1 H2. unfold translated.
  destruct e1; try discriminate; destruct e2; try discriminate; reflexivity.
Qed.

Lemma translateError_details_persist_witness :
  translated (errors_New "missing id") false
    (snd (translateError (errors_New "foo error occurred") true init_store))
  = translated (errors_New "foo error occurred") true init_store.
Proof.
  apply (translateError_details_persist init_store
           (errors_New "foo error occurred") (errors_New "missing id"));
    reflexivity.
Defined.

(** [Error] returns a pointer that is not nil and was not allocated
    before, to a record with the given status, code and message and no
    details; every error that existed before, [unknownError] included,
    is left as it was. *)
Theorem Error_fresh (st : store) (status : Z) (code message : string) :
  reachable true st ->
  exists p,
    fst (Error status code message st) = err_httpError p
    /\ p <> nil_loc
    /\ p <> unknownError
    /\ deref st p = None
    /\ deref (snd (Error status code message st)) p
       = Some {| Code := code; Message := message; Details := []; Status := status |}
    /\ forall q e, deref st q = Some e ->
                   deref (snd (Error status code message st)) q = Some e.
Proof.
  intros Hst. pose proof (reachable_allocated_below _ _ Hst) as Hwf.
  destruct (reachable_ok _ _ Hst) as [_ Hn].
  exists (next st). unfold nil_loc, unknownError in *. simpl.
  split; [reflexivity|]. split; [lia|]. split; [lia|]. split.
  - destruct (deref st (next st)) as [e|] eqn:He; [|reflexivity].
    apply Hwf in He. lia.
  - split.
    + unfold deref. simpl. apply lookup_insert_eq.
    + intros q e Hq. unfold deref in *. simpl.
      rewrite lookup_insert_ne; [exact Hq|].
      apply Hwf in Hq. lia.
Qed.

Lemma Error_fresh_witness :
  exists p,
    fst (Error 404 "customer_not_found" "customer not found" dumped_store)
    = err_httpError p
    /\ p <> nil_loc
    /\ p <> unknownError
    /\ deref dumped_store p = None
    /\ deref (snd (Error 404 "customer_not_found" "customer not found" dumped_store)) p
       = Some {| Code := "customer_not_found"; Message := "customer not found";
                 Details := []; Status := 404 |}
    /\ forall q e, deref dumped_store q = Some e ->
                   deref (snd (Error 404 "customer_not_found" "customer not found"
                                 dumped_store)) q = Some e.
Proof.
  apply (Error_fresh dumped_store 404 "customer_not_found" "customer not found").
  apply (reach_translate true init_store (errors_New "foo error occurred") true).
  - apply reach_init.
  - reflexivity.
Defined.

(** ** The text of an envelope *)

Lemma append_assoc3 (a b c : string) : (a +:+ b) +:+ c = a +:+ (b +:+ c).
Proof.
  induction a as [|x a IH]; [reflexivity|].
  change (String x ((a +:+ b) +:+ c) = String x (a +:+ (b +:+ c))).
  now rewrite IH.
Qed.

(** The elements of a rendered array are the quoted strings, separated
    by commas. *)
Lemma render_strings (ds : list string) :
  (fix go (l : list Json.value) : string :=
     match l with
     | [] => EmptyString
     | [x] => Json.render x
     | x :: rest => Json.render x +:+ "," +:+ go rest
     end) (List.map Json.Str ds)
  = GoStrings.Join (List.map Json.quote ds) ","%char.
Proof.
  induction ds as [|d ds IH]; [reflexivity|].
  destruct ds as [|d' ds]; [reflexivity|].
  change (List.map Json.Str (d :: d' :: ds))
    with (Json.Str d :: List.map Json.Str (d' :: ds)).
  change (List.map Json.quote (d :: d' :: ds))
    with (Json.quote d :: List.map Json.quote (d' :: ds)).
  change (GoStrings.Join (Json.quote d :: List.map Json.quote (d' :: ds)) ","%char)
    with (Json.quote d
            +:+ String ","%char (GoStrings.Join (List.map Json.quote (d' :: ds)) ","%char)).
  rewrite <- IH. reflexivity.
Qed.

Lemma render_Arr_strings (ds : list string) :
  Json.render (Json.Arr (List.map Json.Str ds))
  = "[" +:+ GoStrings.Join (List.map Json.quote ds) ","%char +:+ "]".
Proof. rewrite <- render_strings. reflexivity. Qed.

Lemma MarshalJSON_text_of (c m : string) (ds : list string) (s : Z) :
  MarshalJSON {| Code := c; Message := m; Details := ds; Status := s |}
  = GoStrings.dq "{'error':{'code':" +:+ Json.quote c
      +:+ GoStrings.dq ",'message':" +:+ Json.quote m
      +:+ match ds with
          | [] => EmptyString
          | _ => GoStrings.dq ",'details':["
                   +:+ GoStrings.Join (List.map Json.quote ds) ","%char +:+ "]"
          end
      +:+ "}}".
Proof.
  destruct ds as [|d ds].
  - change (MarshalJSON {| Code := c; Message := m; Details := []; Status := s |})
      with ("{" +:+ (Json.quote "error" +:+ ":" +:+
              ("{" +:+ (Json.quote "code" +:+ ":" +:+ Json.quote c +:+ "," +:+
                        (Json.quote "message" +:+ ":" +:+ Json.quote m)) +:+ "}"))
            +:+ "}").
    generalize (Json.quote c) (Json.quote m). intros qc qm.
    rewrite !append_assoc3. reflexivity.
  - change (MarshalJSON {| Code := c; Message := m; Details := d :: ds; Status := s |})
      with ("{" +:+ (Json.quote "error" +:+ ":" +:+
              ("{" +:+ (Json.quote "code" +:+ ":" +:+ Json.quote c +:+ "," +:+
                        (Json.quote "message" +:+ ":" +:+ Json.quote m +:+ "," +:+
                         (Json.quote "details" +:+ ":" +:+
                          Json.render (Json.Arr (List.map Json.Str (d :: ds))))))
               +:+ "}"))
            +:+ "}").
    rewrite render_Arr_strings.
    generalize (GoStrings.Join (List.map Json.quote (d :: ds)) ","%char).
    generalize (Json.quote c) (Json.quote m). intros qc qm qd.
    rewrite !append_assoc3. reflexivity.
Qed.

(** The text [MarshalJSON] writes, for any envelope: the quoted code and
    message in the fixed frame, followed, when there are details, by
    those, quoted and separated by commas.  The status is not part of
    the text. *)
Theorem MarshalJSON_text (err : httpError) :
  MarshalJSON err
  = GoStrings.dq "{'error':{'code':" +:+ Json.quote (Code err)
      +:+ GoStrings.dq ",'message':" +:+ Json.quote (Message err)
      +:+ match Details err with
          | [] => EmptyString
          | _ => GoStrings.dq ",'details':["
                   +:+ GoStrings.Join (List.map Json.quote (Details err)) ","%char
                   +:+ "]"
          end
      +:+ "}}".
Proof. destruct err as [c m ds s]. apply MarshalJSON_text_of. Qed.

(** ** Errors built by [Error] *)

(** An error built by [Error] reaches the client as it was built: for
    either flag [translateError] returns its pointer on an unchanged
    heap, and the record is written with the given status and the quoted
    code and message, without details. *)
Theorem Error_rendered (st : store) (status : Z) (code message : string) (d : bool) :
  exists p env,
    fst (Error status code message st) = err_httpError p
    /\ translateError (err_httpError p) d (snd (Error status code message st))
       = (p, snd (Error status code message st))
    /\ translated (err_httpError p) d (snd (Error status code message st)) = Some env
    /\ Status env = status
    /\ Details env = []
    /\ MarshalJSON env
       = GoStrings.dq "{'error':{'code':" +:+ Json.quote code
           +:+ GoStrings.dq ",'message':" +:+ Json.quote message +:+ "}}".
Proof.
  eexists _, _. split; [reflexivity|]. split; [reflexivity|].
  split; [unfold translated, deref; simpl; apply lookup_insert_eq|].
  split; [reflexivity|]. split; [reflexivity|].
  apply (MarshalJSON_text_of code message [] status).
Qed.

(** ** Edge cases of [translateError] *)

(** A nil error is translated like any unknown error: the envelope of
    [unknownError], and with the dump flag the single detail [<nil>]. *)
Theorem translateError_nil_error (st : store) (d : bool) :
  reachable true st ->
  exists env,
    translated err_nil d st = Some env
    /\ unknown_head env
    /\ (d = true -> Details env = ["<nil>"]).
Proof.
  intros Hst. destruct (reachable_ok _ _ Hst) as [[u [Hu Hh]] _].
  rewrite (translated_foreign err_nil d st u eq_refl Hu).
  eexists. split; [reflexivity|]. destruct d; split; auto; discriminate.
Qed.

Lemma translateError_nil_error_witness :
  exists env,
    translated err_nil true init_store = Some env
    /\ unknown_head env
    /\ (true = true -> Details env = ["<nil>"]).
Proof.
  apply (translateError_nil_error init_store true). apply reach_init.
Defined.

(** A nil [*httpError] wrapped in an error passes the type assertion and
    is returned as it is: the result is the nil pointer, which no heap
    the package reaches has allocated, so it cannot be read; no unknown
    envelope is substituted, whatever the flag. *)
Theorem translateError_nil_pointer (st : store) (d : bool) :
  reachable true st ->
  translateError (err_httpError nil_loc) d st = (nil_loc, st)
  /\ translated (err_httpError nil_loc) d st = None
  /\ MarshalJSON_at st nil_loc = None.
Proof.
  intros Hst. pose proof (reachable_allocated_below _ _ Hst) as Hwf.
  assert (Hnil : deref st nil_loc = None).
  { destruct (deref st nil_loc) as [e|] eqn:He; [|reflexivity].
    apply Hwf in He. lia. }
  split; [reflexivity|]. split; [exact Hnil|].
  unfold MarshalJSON_at. now rewrite Hnil.
Qed.

Lemma translateError_nil_pointer_witness :
  translateError (err_httpError nil_loc) true dumped_store = (nil_loc, dumped_store)
  /\ translated (err_httpError nil_loc) true dumped_store = None
  /\ MarshalJSON_at dumped_store nil_loc = None.
Proof.
  apply (translateError_nil_pointer dumped_store true).
  apply (reach_translate true init_store (errors_New "foo error occurred") true).
  - apply reach_init.
  - reflexivity.
Defined.

(** ** The text of an envelope is well-formed *)

Lemma steps_app (a b : string) (s : Scanner.scanner) :
  steps s (a +:+ b)
  = match steps s a with
    | Some s' => steps s' b
    | None => None
    end.
Proof.
  revert s. induction a as [|c a IH]; intros s; [reflexivity|].
  change (String c a +:+ b) with (String c (a +:+ b)).
  simpl.
  destruct (Scanner.scan_step (Scanner.fed s) c) as [s' op].
  destruct op; try apply IH; reflexivity.
Qed.

(** Checking goes on after a run that was fed. *)
Lemma checkValid_steps (a b : string) (s s' : Scanner.scanner) :
  steps s a = Some s' ->
  checkValid_from s (a +:+ b) = checkValid_from s' b.
Proof.
  revert s. induction a as [|c a IH]; intros s H.
  - injection H as <-. reflexivity.
  - change (String c a +:+ b) with (String c (a +:+ b)).
    simpl in *.
    destruct (Scanner.scan_step (Scanner.fed s) c) as [s1 op].
    destruct op; try discriminate; now apply IH.
Qed.

Lemma stays_steps (a : string) (s s' : Scanner.scanner) :
  stays_in_string s a = Some s' -> steps s a = Some s'.
Proof.
  revert s. induction a as [|c a IH]; intros s H; [exact H|].
  simpl in *.
  destruct (Scanner.scan_step (Scanner.fed s) c) as [s1 op].
  destruct op; try discriminate.
  destruct (in_string (Scanner.step s1)); [now apply IH | discriminate].
Qed.

Lemma stays_app (a b : string) (s : Scanner.scanner) :
  stays_in_string s (a +:+ b)
  = match stays_in_string s a with
    | Some s' => stays_in_string s' b
    | None => None
    end.
Proof.
  revert s. induction a as [|c a IH]; intros s; [reflexivity|].
  change (String c a +:+ b) with (String c (a +:+ b)).
  simpl.
  destruct (Scanner.scan_step (Scanner.fed s) c) as [s' op].
  destruct op; try reflexivity.
  destruct (in_string (Scanner.step s')); [apply IH | reflexivity].
Qed.

(** A byte of [0x80] or more is plain text inside a string literal. *)
Lemma scan_step_high (c : ascii) (s : Scanner.scanner) :
  Scanner.step s = Scanner.stateInString ->
  (128 <= nat_of_ascii c)%nat ->
  Scanner.scan_step s c = (s, Scanner.scanContinue).
Proof.
  intros Hs Hc. unfold Scanner.scan_step. rewrite Hs.
  destruct c as [[] [] [] [] [] [] [] []];
    try (exfalso; vm_compute in Hc; lia); reflexivity.
Qed.

(** The escape of an ASCII byte keeps the scanner inside the literal. *)
Lemma stays_escape_ascii (c : ascii) (s : Scanner.scanner) :
  Scanner.step s = Scanner.stateInString ->
  (nat_of_ascii c < 128)%nat ->
  exists s', stays_in_string s (Json.escape_ascii c) = Some s' /\ literal_kept s s'.
Proof.
  intros Hs Hc. destruct s as [st ps e b]. simpl in Hs. subst st.
  destruct c as [[] [] [] [] [] [] [] []];
    try (exfalso; vm_compute in Hc; lia);
    (eexists; split; [cbv; reflexivity | repeat split]).
Qed.

Lemma highs_of_bytes (k : nat) (r : string) :
  (forall i, (i < k)%nat -> (128 <= Json.byte_at i r)%nat) -> highs k r.
Proof.
  revert r. induction k as [|k IH]; intros r H; [now destruct r|].
  destruct r as [|c r]; [exact I|]. split.
  - apply (H 0%nat). lia.
  - apply IH. intros i Hi. apply (H (S i)). lia.
Qed.

(** The bytes that follow the first byte of a well-formed multi-byte
    character are [0x80] or more. *)
Lemma utf8_size_highs (c : ascii) (r : string) (k : nat) :
  Json.utf8_size (String c r) = S k -> highs k r.
Proof.
  intros H. apply highs_of_bytes. intros i Hi.
  unfold Json.utf8_size in H.
  change (Json.byte_at 1 (String c r)) with (Json.byte_at 0 r) in H.
  change (Json.byte_at 2 (String c r)) with (Json.byte_at 1 r) in H.
  change (Json.byte_at 3 (String c r)) with (Json.byte_at 2 r) in H.
  unfold Json.between in H.
  repeat match type of H with
         | context [if ?b then _ else _] => destruct b eqn:?
         end;
    try discriminate; injection H as <-;
    repeat match goal with
           | E : (_ && _)%bool = true |- _ => apply andb_true_iff in E as [? ?]
           | E : (_ <=? _)%nat = true |- _ => apply Nat.leb_le in E
           end;
    repeat match goal with
           | E : context [if ?b then _ else _] |- _ => destruct b
           end;
    destruct i as [|[|[|i]]]; lia.
Qed.

Lemma escape_new (keep : bool) (c : ascii) (r : string) :
  Json.escape 0 keep (String c r)
  = if (nat_of_ascii c <? 128)%nat then Json.escape_ascii c +:+ Json.escape 0 true r
    else
      match Json.utf8_size (String c r) with
      | O => String (ascii_of_nat 92) "ufffd" +:+ Json.escape 0 true r
      | S k =>
          if (nat_of_ascii c =? 226)%nat && (Json.byte_at 1 (String c r) =? 128)%nat
             && Json.between 168 169 (Json.byte_at 2 (String c r))
          then (String (ascii_of_nat 92) "u202"
                  +:+ String (Json.hexdigit (Json.byte_at 2 (String c r) mod 16))
                        EmptyString)
                 +:+ Json.escape k false r
          else String c (Json.escape k true r)
      end.
Proof. reflexivity. Qed.

Lemma escape_skip (k : nat) (keep : bool) (c : ascii) (r : string) :
  Json.escape (S k) keep (String c r)
  = if keep then String c (Json.escape k keep r) else Json.escape k keep r.
Proof. reflexivity. Qed.

Lemma stays_high (s : Scanner.scanner) (c : ascii) (rest : string) :
  Scanner.step s = Scanner.stateInString ->
  (128 <= nat_of_ascii c)%nat ->
  stays_in_string s (String c rest) = stays_in_string (Scanner.fed s) rest.
Proof.
  intros Hs Hc. simpl.
  rewrite (scan_step_high c (Scanner.fed s) Hs Hc). simpl. now rewrite Hs.
Qed.

Lemma literal_kept_trans (s1 s2 s3 : Scanner.scanner) :
  literal_kept s1 s2 -> literal_kept s2 s3 -> literal_kept s1 s3.
Proof. intros [? [? ?]] [? [? ?]]. repeat split; congruence. Qed.

(** The body [escape] writes, for any bytes, never takes the scanner out
    of the string literal: no byte of it closes the literal or is
    refused. *)
Lemma stays_escape (str : string) :
  forall (skip : nat) (keep : bool) (s : Scanner.scanner),
    Scanner.step s = Scanner.stateInString ->
    (keep = true -> highs skip str) ->
    exists s', stays_in_string s (Json.escape skip keep str) = Some s'
               /\ literal_kept s s'.
Proof.
  induction str as [|c r IH]; intros skip keep s Hs Hh.
  - exists s. destruct skip; simpl; repeat split; auto.
  - destruct skip as [|k].
    + rewrite escape_new. destruct (nat_of_ascii c <? 128)%nat eqn:Hc.
      * apply Nat.ltb_lt in Hc.
        destruct (stays_escape_ascii c s Hs Hc) as [s1 [H1 K1]].
        destruct (IH 0%nat true s1 (proj1 K1) (fun _ => I)) as [s2 [H2 K2]].
        exists s2. rewrite stays_app, H1, H2.
        split; [reflexivity | now apply (literal_kept_trans s s1 s2)].
      * apply Nat.ltb_ge in Hc.
        destruct (Json.utf8_size (String c r)) as [|k] eqn:Hsz.
        -- assert (H1 : exists s1,
                      stays_in_string s (String (ascii_of_nat 92) "ufffd") = Some s1
                      /\ literal_kept s s1).
           { destruct s as [st ps e b]. simpl in Hs. subst st.
             eexists. split; [cbv; reflexivity | repeat split]. }
           destruct H1 as [s1 [H1 K1]].
           destruct (IH 0%nat true s1 (proj1 K1) (fun _ => I)) as [s2 [H2 K2]].
           exists s2. rewrite stays_app, H1, H2.
           split; [reflexivity | now apply (literal_kept_trans s s1 s2)].
        -- pose proof (utf8_size_highs c r k Hsz) as Hk.
           destruct ((nat_of_ascii c =? 226)%nat
                     && (Json.byte_at 1 (String c r) =? 128)%nat
                     && Json.between 168 169 (Json.byte_at 2 (String c r))) eqn:Hls.
           ++ apply andb_true_iff in Hls as [_ Hb].
              unfold Json.between in Hb.
              apply andb_true_iff in Hb as [Hlo Hhi].
              apply Nat.leb_le in Hlo, Hhi.
              assert (H1 : exists s1,
                         stays_in_string s
                           (String (ascii_of_nat 92) "u202"
                              +:+ String (Json.hexdigit
                                            (Json.byte_at 2 (String c r) mod 16))
                                    EmptyString)
                         = Some s1
                         /\ literal_kept s s1).
              { destruct s as [st ps e b]. simpl in Hs. subst st.
                assert (Hv : Json.byte_at 2 (String c r) = 168%nat
                             \/ Json.byte_at 2 (String c r) = 169%nat) by lia.
                destruct Hv as [-> | ->];
                  (eexists; split; [cbv; reflexivity | repeat split]). }
              destruct H1 as [s1 [H1 K1]].
              destruct (IH k false s1 (proj1 K1)) as [s2 [H2 K2]]; [discriminate|].
              exists s2. rewrite stays_app, H1, H2.
              split; [reflexivity | now apply (literal_kept_trans s s1 s2)].
           ++ destruct (IH k true (Scanner.fed s) Hs (fun _ => Hk)) as [s2 [H2 K2]].
              exists s2. rewrite (stays_high s c _ Hs Hc).
              split; [assumption|]. destruct K2 as [? [? ?]]. repeat split; assumption.
    + rewrite escape_skip. destruct keep.
      * destruct (Hh eq_refl) as [Hc Hr].
        destruct (IH k true (Scanner.fed s) Hs (fun _ => Hr)) as [s2 [H2 K2]].
        exists s2. rewrite (stays_high s c _ Hs Hc).
        split; [assumption|]. destruct K2 as [? [? ?]]. repeat split; assumption.
      * apply IH; [assumption | discriminate].
Qed.

(** Read from inside a literal, a run that stays in the literal and the
    quote after it are the body of the literal, and what follows the
    quote is left. *)
Lemma read_literal_stays (a rest : string) :
  forall s s',
    stays_in_string s a = Some s' ->
    Scanner.step s' = Scanner.stateInString ->
    read_literal s (a +:+ String GoStrings.dquote rest) = Some (a, rest).
Proof.
  induction a as [|c a IH]; intros s s' H Hs'.
  - injection H as <-. destruct s as [st ps e b]. simpl in Hs'. subst st. reflexivity.
  - change (String c a +:+ String GoStrings.dquote rest)
      with (String c (a +:+ String GoStrings.dquote rest)).
    simpl in *.
    destruct (Scanner.scan_step (Scanner.fed s) c) as [s1 op].
    destruct op; try discriminate.
    destruct (in_string (Scanner.step s1)) eqn:Hin; [|discriminate].
    now rewrite (IH s1 s' H Hs').
Qed.

(** Each string [MarshalJSON] writes is one string literal: read from
    its opening quote, the scanner finds its end at the closing quote
    the encoder wrote, not before. *)
Lemma read_literal_escape (x rest : string) :
  read_literal literal_start (Json.escape 0 true x +:+ String GoStrings.dquote rest)
  = Some (Json.escape 0 true x, rest).
Proof.
  destruct (stays_escape x 0%nat true literal_start eq_refl (fun _ => I))
    as [s' [H [Hs' _]]].
  exact (read_literal_stays _ _ _ _ H Hs').
Qed.

Lemma expect_app (p x : string) : expect p (p +:+ x) = Some x.
Proof.
  induction p as [|c p IH]; [now destruct x|].
  change (String c p +:+ x) with (String c (p +:+ x)).
  simpl. now rewrite Ascii.eqb_refl.
Qed.

Lemma quote_app (x rest : string) :
  Json.quote x +:+ rest
  = String GoStrings.dquote (Json.escape 0 true x +:+ String GoStrings.dquote rest).
Proof.
  unfold Json.quote.
  change (String GoStrings.dquote
            (Json.escape 0 true x +:+ String GoStrings.dquote EmptyString) +:+ rest)
    with (String GoStrings.dquote
            ((Json.escape 0 true x +:+ String GoStrings.dquote EmptyString) +:+ rest)).
  now rewrite append_assoc3.
Qed.

Lemma Join_more_items (d : string) (ds : list string) (close : string) :
  GoStrings.Join (List.map Json.quote (d :: ds)) ","%char +:+ close
  = Json.quote d +:+ more_items ds close.
Proof.
  revert d. induction ds as [|d' ds IH]; intros d; [reflexivity|].
  change (GoStrings.Join (List.map Json.quote (d :: d' :: ds)) ","%char)
    with (Json.quote d
            +:+ String ","%char
                  (GoStrings.Join (List.map Json.quote (d' :: ds)) ","%char)).
  rewrite append_assoc3.
  change (String ","%char (GoStrings.Join (List.map Json.quote (d' :: ds)) ","%char)
            +:+ close)
    with (String ","%char
            (GoStrings.Join (List.map Json.quote (d' :: ds)) ","%char +:+ close)).
  rewrite IH. reflexivity.
Qed.

(** The text of an envelope, cut where its string literals begin and
    end. *)
Lemma MarshalJSON_cut (c m : string) (ds : list string) (st : Z) :
  MarshalJSON {| Code := c; Message := m; Details := ds; Status := st |}
  = GoStrings.dq "{'error':{'code':'"
      +:+ (Json.escape 0 true c
             +:+ String GoStrings.dquote
                   (GoStrings.dq ",'message':'"
                      +:+ (Json.escape 0 true m
                             +:+ String GoStrings.dquote
                                   match ds with
                                   | [] => "}}"
                                   | d :: ds' =>
                                       GoStrings.dq ",'details':['"
                                         +:+ (Json.escape 0 true d
                                                +:+ String GoStrings.dquote
                                                      (more_items ds' "]}}"))
                                   end))).
Proof.
  rewrite MarshalJSON_text_of. rewrite !quote_app.
  destruct ds as [|d ds']; [reflexivity|].
  rewrite !append_assoc3.
  rewrite (Join_more_items d ds' ("]" +:+ "}}")).
  rewrite quote_app. reflexivity.
Qed.

Lemma more_items_cons (d : string) (ds : list string) (close : string) :
  more_items (d :: ds) close
  = GoStrings.dq ",'"
      +:+ (Json.escape 0 true d +:+ String GoStrings.dquote (more_items ds close)).
Proof.
  change (more_items (d :: ds) close)
    with ("," +:+ Json.quote d +:+ more_items ds close).
  rewrite quote_app. reflexivity.
Qed.

(** A run that was fed, followed by a text that completes a valid
    document, completes a valid document. *)
Lemma valid_after (a b : string) (s s' : Scanner.scanner) :
  steps s a = Some s' ->
  checkValid_from s' b = None ->
  checkValid_from s (a +:+ b) = None.
Proof. intros Hf Hb. now rewrite (checkValid_steps a b s s' Hf). Qed.

(** A string literal body is fed like any run. *)
Lemma steps_escape (x : string) (s : Scanner.scanner) :
  Scanner.step s = Scanner.stateInString ->
  exists s', steps s (Json.escape 0 true x) = Some s' /\ literal_kept s s'.
Proof.
  intros Hs. destruct (stays_escape x 0%nat true s Hs (fun _ => I)) as [s' [H K]].
  exists s'. split; [now apply stays_steps | exact K].
Qed.

(** A fixed run of bytes takes the scanner from one step and stack to
    another, whatever its byte count. *)
Ltac fixed_run :=
  let s := fresh "s" in
  let Hs := fresh "Hs" in
  let Hp := fresh "Hp" in
  let He := fresh "He" in
  intros s Hs Hp He; destruct s as [? ? ? ?]; simpl in Hs, Hp, He; subst;
  eexists; split; [cbv; reflexivity | repeat split].

Lemma steps_next_member :
  forall s,
    Scanner.step s = Scanner.stateInString ->
    Scanner.parseState s = [Scanner.parseObjectValue; Scanner.parseObjectValue] ->
    Scanner.err s = None ->
    exists s',
      steps s (GoStrings.dq "','message':'") = Some s'
      /\ Scanner.step s' = Scanner.stateInString
      /\ Scanner.parseState s' = [Scanner.parseObjectValue; Scanner.parseObjectValue]
      /\ Scanner.err s' = None.
Proof. fixed_run. Qed.

Lemma steps_details_member :
  forall s,
    Scanner.step s = Scanner.stateInString ->
    Scanner.parseState s = [Scanner.parseObjectValue; Scanner.parseObjectValue] ->
    Scanner.err s = None ->
    exists s',
      steps s (GoStrings.dq "','details':['") = Some s'
      /\ Scanner.step s' = Scanner.stateInString
      /\ Scanner.parseState s'
         = [Scanner.parseArrayValue; Scanner.parseObjectValue; Scanner.parseObjectValue]
      /\ Scanner.err s' = None.
Proof. fixed_run. Qed.

Lemma steps_next_item :
  forall s,
    Scanner.step s = Scanner.stateInString ->
    Scanner.parseState s
    = [Scanner.parseArrayValue; Scanner.parseObjectValue; Scanner.parseObjectValue] ->
    Scanner.err s = None ->
    exists s',
      steps s (GoStrings.dq "','") = Some s'
      /\ Scanner.step s' = Scanner.stateInString
      /\ Scanner.parseState s'
         = [Scanner.parseArrayValue; Scanner.parseObjectValue; Scanner.parseObjectValue]
      /\ Scanner.err s' = None.
Proof. fixed_run. Qed.

Lemma valid_close_objects (s : Scanner.scanner) :
  Scanner.step s = Scanner.stateInString ->
  Scanner.parseState s = [Scanner.parseObjectValue; Scanner.parseObjectValue] ->
  Scanner.err s = None ->
  checkValid_from s (GoStrings.dq "'}}") = None.
Proof.
  intros Hs Hp He. destruct s as [? ? ? ?]. simpl in Hs, Hp, He. subst. reflexivity.
Qed.

Lemma valid_close_array (s : Scanner.scanner) :
  Scanner.step s = Scanner.stateInString ->
  Scanner.parseState s
  = [Scanner.parseArrayValue; Scanner.parseObjectValue; Scanner.parseObjectValue] ->
  Scanner.err s = None ->
  checkValid_from s (GoStrings.dq "']}}") = None.
Proof.
  intros Hs Hp He. destruct s as [? ? ? ?]. simpl in Hs, Hp, He. subst. reflexivity.
Qed.

(** The elements of the details array, from inside the first one to the
    end of the document, complete a valid document. *)
Lemma items_valid (ds : list string) :
  forall (d : string) (s : Scanner.scanner),
    Scanner.step s = Scanner.stateInString ->
    Scanner.parseState s
    = [Scanner.parseArrayValue; Scanner.parseObjectValue; Scanner.parseObjectValue] ->
    Scanner.err s = None ->
    checkValid_from s
      (Json.escape 0 true d +:+ String GoStrings.dquote (more_items ds "]}}"))
    = None.
Proof.
  induction ds as [|d' ds IH]; intros d s Hs Hp He;
    destruct (steps_escape d s Hs) as [s1 [H1 [Hs1 [Hp1 He1]]]];
    rewrite Hp in Hp1; rewrite He in He1; apply (valid_after _ _ s s1 H1).
  - now apply valid_close_array.
  - destruct (steps_next_item s1 Hs1 Hp1 He1) as [s2 [H2 [Hs2 [Hp2 He2]]]].
    rewrite more_items_cons.
    change (String GoStrings.dquote
              (GoStrings.dq ",'"
                 +:+ (Json.escape 0 true d'
                        +:+ String GoStrings.dquote (more_items ds "]}}"))))
      with (GoStrings.dq "','"
              +:+ (Json.escape 0 true d'
                     +:+ String GoStrings.dquote (more_items ds "]}}"))).
    apply (valid_after _ _ s1 s2 H2). now apply IH.
Qed.

Lemma MarshalJSON_valid_of (c m : string) (ds : list string) (st : Z) :
  checkValid (MarshalJSON {| Code := c; Message := m; Details := ds; Status := st |})
  = None.
Proof.
  rewrite MarshalJSON_cut. unfold checkValid.
  set (s0 := {| Scanner.step := Scanner.stateInString;
                Scanner.parseState :=
                  [Scanner.parseObjectValue; Scanner.parseObjectValue];
                Scanner.err := None;
                Scanner.bytes := 18 |}).
  assert (H0 : steps Scanner.reset (GoStrings.dq "{'error':{'code':'") = Some s0)
    by reflexivity.
  apply (valid_after _ _ Scanner.reset s0 H0).
  destruct (steps_escape c s0 eq_refl) as [s1 [H1 [Hs1 [Hp1 He1]]]].
  apply (valid_after _ _ s0 s1 H1).
  destruct (steps_next_member s1 Hs1 Hp1 He1) as [s2 [H2 [Hs2 [Hp2 He2]]]].
  change (String GoStrings.dquote (GoStrings.dq ",'message':'" +:+ ?x))
    with (GoStrings.dq "','message':'" +:+ x).
  apply (valid_after _ _ s1 s2 H2).
  destruct (steps_escape m s2 Hs2) as [s3 [H3 [Hs3 [Hp3 He3]]]].
  rewrite Hp2 in Hp3. rewrite He2 in He3.
  apply (valid_after _ _ s2 s3 H3).
  destruct ds as [|d ds].
  - now apply valid_close_objects.
  - destruct (steps_details_member s3 Hs3 Hp3 He3) as [s4 [H4 [Hs4 [Hp4 He4]]]].
    change (String GoStrings.dquote (GoStrings.dq ",'details':['" +:+ ?x))
      with (GoStrings.dq "','details':['" +:+ x).
    apply (valid_after _ _ s3 s4 H4).
    now apply items_valid.
Qed.

(** Whatever bytes the code, the message and the details hold (quotes,
    backslashes, control characters, bytes that are not UTF-8), the text
    [MarshalJSON] writes is valid JSON: fed whole to the scanner, every
    byte is accepted and the input ends exactly where one top-level
    value ends, with nothing after it. *)
Theorem MarshalJSON_valid (err : httpError) :
  checkValid (MarshalJSON err) = None.
Proof. destruct err as [c m ds st]. apply MarshalJSON_valid_of. Qed.

(** ** The shape of the text of an envelope *)

Lemma length_append (a b : string) :
  String.length (a +:+ b) = (String.length a + String.length b)%nat.
Proof.
  induction a as [|c a IH]; [reflexivity|].
  change (String c a +:+ b) with (String c (a +:+ b)). simpl. now rewrite IH.
Qed.

Lemma length_more_items (ds : list string) (close : string) :
  (length ds <= String.length (more_items ds close))%nat.
Proof.
  induction ds as [|d ds IH]; simpl; [lia|].
  change (String.length ("," +:+ Json.quote d +:+ more_items ds close))
    with (S (String.length (Json.quote d +:+ more_items ds close))).
  rewrite length_append. lia.
Qed.

Lemma read_items_S (fuel : nat) (input : string) :
  read_items (S fuel) input
  = match expect (GoStrings.dq ",'") input with
    | None => Some ([], input)
    | Some rest =>
        match read_literal literal_start rest with
        | None => None
        | Some (d, after) =>
            match read_items fuel after with
            | Some (ds, final) => Some (d :: ds, final)
            | None => None
            end
        end
    end.
Proof. reflexivity. Qed.

Lemma read_items_more (ds : list string) :
  forall fuel,
    (length ds < fuel)%nat ->
    read_items fuel (more_items ds "]}}")
    = Some (List.map (Json.escape 0 true) ds, "]}}").
Proof.
  induction ds as [|d ds IH]; intros fuel Hf.
  - destruct fuel as [|fuel]; [lia | reflexivity].
  - destruct fuel as [|fuel]; [simpl in Hf; lia|].
    rewrite more_items_cons, read_items_S.
    rewrite expect_app, read_literal_escape, IH by (simpl in Hf; lia).
    reflexivity.
Qed.

(** The text of any envelope has the shape of an error response, and
    its string literals are those of the code, the message and the
    details; the member [details] is there exactly when there are
    details. *)
Lemma envelope_shape_of (c m : string) (ds : list string) (st : Z) :
  envelope_shape (MarshalJSON {| Code := c; Message := m; Details := ds; Status := st |})
  = Some {| code_literal := Json.escape 0 true c;
            message_literal := Json.escape 0 true m;
            details_literals :=
              match ds with
              | [] => None
              | _ => Some (List.map (Json.escape 0 true) ds)
              end |}.
Proof.
  rewrite MarshalJSON_cut. unfold envelope_shape.
  rewrite expect_app, read_literal_escape, expect_app, read_literal_escape.
  destruct ds as [|d ds]; [reflexivity|].
  change (expect "}}"
            (GoStrings.dq ",'details':['"
               +:+ (Json.escape 0 true d
                      +:+ String GoStrings.dquote (more_items ds "]}}"))))
    with (@None string).
  rewrite expect_app, read_literal_escape.
  rewrite read_items_more; [reflexivity|].
  pose proof (length_more_items ds "]}}") as Hl.
  assert (Hne : more_items ds "]}}" <> EmptyString).
  { destruct ds; [discriminate|]. rewrite more_items_cons. discriminate. }
  destruct ds as [|d' ds']; [simpl; lia|].
  rewrite more_items_cons in *.
  change (String.length
            (GoStrings.dq ",'"
               +:+ (Json.escape 0 true d'
                      +:+ String GoStrings.dquote (more_items ds' "]}}"))))
    with (S (S (String.length
                  (Json.escape 0 true d'
                     +:+ String GoStrings.dquote (more_items ds' "]}}"))))).
  rewrite length_append. simpl String.length.
  pose proof (length_more_items ds' "]}}"). simpl length. lia.
Qed.

(** C5: whatever its fields hold, the text [MarshalJSON] writes for an
    envelope has the shape of an error response: read off the text
    itself, it is the object with the single member [error], whose value
    is the object with the members [code] and [message], both string
    literals, followed by the member [details], an array of string
    literals, exactly when the details are not empty, and no other
    member; each literal ends at the quote the encoder closed it with,
    and the whole text is valid JSON.  The document behind the text has
    the code, the message and the details as the values of these
    members. *)
Theorem MarshalJSON_shape (err : httpError) :
  envelope_shape (MarshalJSON err)
  = Some {| code_literal := Json.escape 0 true (Code err);
            message_literal := Json.escape 0 true (Message err);
            details_literals :=
              match Details err with
              | [] => None
              | _ => Some (List.map (Json.escape 0 true) (Details err))
              end |}
  /\ (forall t, envelope_shape (MarshalJSON err) = Some t ->
                (details_literals t <> None <-> Details err <> []))
  /\ checkValid (MarshalJSON err) = None
  /\ MarshalJSON err
     = GoStrings.dq "{'error':{'code':" +:+ Json.quote (Code err)
         +:+ GoStrings.dq ",'message':" +:+ Json.quote (Message err)
         +:+ match Details err with
             | [] => EmptyString
             | _ => GoStrings.dq ",'details':["
                      +:+ GoStrings.Join (List.map Json.quote (Details err)) ","%char
                      +:+ "]"
             end
         +:+ "}}"
  /\ exists members,
      MarshalJSON_value err = Json.Obj [("error", Json.Obj members)]
      /\ members
         = List.app
             [("code", Json.Str (Code err)); ("message", Json.Str (Message err))]
             (if decide (Details err = []) then []
              else [("details", Json.Arr (List.map Json.Str (Details err)))])
      /\ (In "details" (List.map fst members) <-> Details err <> [])
      /\ (forall k, In k (List.map fst members) ->
                    k = "code" \/ k = "message" \/ k = "details")
      /\ MarshalJSON err = Json.render (Json.Obj [("error", Json.Obj members)]).
Proof.
  split; [destruct err as [c m ds st]; apply envelope_shape_of|].
  split.
  { destruct err as [c m ds st]. intros t Ht.
    rewrite envelope_shape_of in Ht. injection Ht as <-. simpl.
    destruct ds; split; intros H; try discriminate; congruence. }
  split; [destruct err as [c m ds st]; apply MarshalJSON_valid_of|].
  split; [destruct err as [c m ds st]; apply MarshalJSON_text_of|].
  apply MarshalJSON_value_shape.
Qed.

(** Two envelopes are written as the same text exactly when their
    codes, their messages and their details are escaped alike: the text
    drops the status, and fields that differ only in bytes the encoder
    replaces (bytes that are not UTF-8) are written alike. *)
Theorem MarshalJSON_text_injective (e1 e2 : httpError) :
  MarshalJSON e1 = MarshalJSON e2
  <-> Json.escape 0 true (Code e1) = Json.escape 0 true (Code e2)
      /\ Json.escape 0 true (Message e1) = Json.escape 0 true (Message e2)
      /\ List.map (Json.escape 0 true) (Details e1)
         = List.map (Json.escape 0 true) (Details e2).
Proof.
  destruct e1 as [c1 m1 ds1 s1], e2 as [c2 m2 ds2 s2]. simpl. split.
  - intros H. apply (f_equal envelope_shape) in H.
    rewrite !envelope_shape_of in H. injection H as Hc Hm Hd.
    split; [exact Hc|]. split; [exact Hm|].
    destruct ds1, ds2; try discriminate; [reflexivity | congruence].
  - intros [Hc [Hm Hd]].
    assert (Q : forall x y, Json.escape 0 true x = Json.escape 0 true y ->
                            Json.quote x = Json.quote y).
    { intros x y Hxy. unfold Json.quote. now rewrite Hxy. }
    assert (Hq : List.map Json.quote ds1 = List.map Json.quote ds2).
    { revert ds2 Hd. induction ds1 as [|d1 ds1 IH]; intros [|d2 ds2] Hd;
        try discriminate; [reflexivity|].
      simpl in Hd. injection Hd as Hd1 Hds. simpl.
      now rewrite (Q _ _ Hd1), (IH _ Hds). }
    rewrite !MarshalJSON_text_of, (Q _ _ Hc), (Q _ _ Hm).
    destruct ds1, ds2; try discriminate; [reflexivity | now rewrite Hq].
Qed.

(** ** The constructors and the error text *)

(** The four shorthand constructors build errors the client receives
    with their own status and code (400 [bad_request], 401
    [unauthorized], 404 [not_found], 422 [unprocessable_entity]), the
    caller's message and no details, whatever the dump flag. *)
Theorem constructors_rendered (st : store) (msg : string) (d : bool) :
  translated (fst (BadRequest msg st)) d (snd (BadRequest msg st))
  = Some {| Code := "bad_request"; Message := msg; Details := []; Status := 400 |}
  /\ translated (fst (UnauthorizedError msg st)) d (snd (UnauthorizedError msg st))
     = Some {| Code := "unauthorized"; Message := msg; Details := []; Status := 401 |}
  /\ translated (fst (NotFound msg st)) d (snd (NotFound msg st))
     = Some {| Code := "not_found"; Message := msg; Details := []; Status := 404 |}
  /\ translated (fst (UnprocessableEntity msg st)) d (snd (UnprocessableEntity msg st))
     = Some {| Code := "unprocessable_entity"; Message := msg; Details := [];
               Status := 422 |}.
Proof.
  repeat split; unfold translated, deref; simpl; apply lookup_insert_eq.
Qed.

Lemma colon_split (c1 c2 m1 m2 : string) :
  GoStrings.contains c1 ":"%char = false ->
  GoStrings.contains c2 ":"%char = false ->
  c1 +:+ ": " +:+ m1 = c2 +:+ ": " +:+ m2 ->
  c1 = c2 /\ m1 = m2.
Proof.
  revert c2. induction c1 as [|x c1 IH]; intros [|y c2] H1 H2 H.
  - change (String ":" (String " " m1) = String ":" (String " " m2)) in H.
    injection H as ->. now split.
  - exfalso.
    change (String ":" (String " " m1) = String y (c2 +:+ ": " +:+ m2)) in H.
    injection H as Hy _. subst y. simpl in H2. discriminate.
  - exfalso.
    change (String x (c1 +:+ ": " +:+ m1) = String ":" (String " " m2)) in H.
    injection H as Hx _. subst x. simpl in H1. discriminate.
  - change (String x (c1 +:+ ": " +:+ m1) = String y (c2 +:+ ": " +:+ m2)) in H.
    injection H as -> Ht.
    simpl in H1, H2. apply orb_false_iff in H1 as [_ H1], H2 as [_ H2].
    destruct (IH c2 H1 H2 Ht) as [-> ->]. now split.
Qed.

(** The text of [Error()] is [jsonrest: ], the code, a colon and a
    space, and the message.  When the codes hold no colon, as the codes
    of this package do, the text tells code and message apart: equal
    texts come from equal codes and messages.  The status is not in
    it. *)
Theorem httpError_Error_injective (e1 e2 : httpError) :
  GoStrings.contains (Code e1) ":"%char = false ->
  GoStrings.contains (Code e2) ":"%char = false ->
  httpError_Error e1 = httpError_Error e2 ->
  Code e1 = Code e2 /\ Message e1 = Message e2.
Proof.
  intros H1 H2 H. unfold httpError_Error in H.
  change ("jsonrest: " +:+ Code e1 +:+ ": " +:+ Message e1)
    with (String "j" (String "s" (String "o" (String "n" (String "r" (String "e"
            (String "s" (String "t" (String ":" (String " "
               (Code e1 +:+ ": " +:+ Message e1))))))))))) in H.
  change ("jsonrest: " +:+ Code e2 +:+ ": " +:+ Message e2)
    with (String "j" (String "s" (String "o" (String "n" (String "r" (String "e"
            (String "s" (String "t" (String ":" (String " "
               (Code e2 +:+ ": " +:+ Message e2))))))))))) in H.
  injection H as H. now apply colon_split.
Qed.

Lemma httpError_Error_injective_witness :
  Code unknownError_init = Code (set_Details ["x"] unknownError_init)
  /\ Message unknownError_init = Message (set_Details ["x"] unknownError_init).
Proof.
  apply (httpError_Error_injective unknownError_init
           (set_Details ["x"] unknownError_init)); reflexivity.
Defined.
